(** * Text transformation plugin (ckeditor5-typing/src/texttransformation.js)

    A shallow embedding of the plugin's configuration resolution
    ([getConfiguredTransformations], [expandGroupsAndRemoveDuplicates]),
    of its catalogue of named transformations, and of the per-rule
    watchers installed by [TextTransformation.init], together with the
    ECMAScript primitives they rely on (strings of UTF-16 code units,
    [Set], [Array.prototype.includes], property lookup through the
    prototype chain, [String.prototype.endsWith], [slice], [replace] and
    the backtracking pattern matcher). *)

From Stdlib Require Import String Ascii NArith ZArith Bool Arith Lia List.
Import ListNotations.
Open Scope string_scope.
Open Scope list_scope.

Set Implicit Arguments.

(** ** ECMAScript values used by the plugin *)

Module JS.

(** A JavaScript string is a sequence of UTF-16 code units; [length]
    counts code units, so the one-unit glyphs of the catalogue
    (U+00A9, U+201C, ...) have length 1. *)
Definition jsstring := list N.

(** ASCII literals of the source, as code units. *)
Definition lit (s : string) : jsstring :=
  map N_of_ascii (list_ascii_of_string s).

Fixpoint jsstring_eqb (a b : jsstring) : bool :=
  match a, b with
  | [], [] => true
  | x :: a', y :: b' => N.eqb x y && jsstring_eqb a' b'
  | _, _ => false
  end.

(** Completion records: a normal result or a thrown exception. *)
Inductive exn := TypeError_not_iterable (key : string).

Inductive result (A : Type) :=
| Ok (a : A)
| Throw (e : exn).
Arguments Ok {A} a.
Arguments Throw {A} e.

Definition bind {A B} (r : result A) (k : A -> result B) : result B :=
  match r with
  | Ok a => k a
  | Throw e => Throw e
  end.

(** Property names every object literal inherits from
    [Object.prototype]; each is bound to a function, [__proto__] to the
    prototype object itself: truthy, and not iterable. *)
Definition Object_prototype_keys : list string :=
  [ "constructor"; "__defineGetter__"; "__defineSetter__"; "hasOwnProperty";
    "__lookupGetter__"; "__lookupSetter__"; "isPrototypeOf";
    "propertyIsEnumerable"; "toString"; "valueOf"; "__proto__";
    "toLocaleString" ].

Definition inherited (key : string) : bool :=
  existsb (String.eqb key) Object_prototype_keys.

(** The result of [obj[key]] on an object literal whose own properties
    are the association list [own]. *)
Inductive property (A : Type) :=
| Own (a : A)
| Inherited
| Undefined.
Arguments Own {A} a.
Arguments Inherited {A}.
Arguments Undefined {A}.

Fixpoint own_property {A} (own : list (string * A)) (key : string) : option A :=
  match own with
  | [] => None
  | (k, a) :: rest => if String.eqb key k then Some a else own_property rest key
  end.

Definition Get {A} (own : list (string * A)) (key : string) : property A :=
  match own_property own key with
  | Some a => Own a
  | None => if inherited key then Inherited else Undefined
  end.

(** [String.prototype.endsWith(searchString)] with the default end
    position. *)
Definition endsWith (text searchString : jsstring) : bool :=
  (length searchString <=? length text)%nat
  && jsstring_eqb (skipn (length text - length searchString) text) searchString.

(** [String.prototype.slice(start, end)]: negative indices count from
    the end, both are clamped to the string. *)
Definition relative_index (len i : Z) : Z :=
  if (i <? 0)%Z then Z.max (len + i) 0 else Z.min i len.

Definition slice (s : jsstring) (start finish : Z) : jsstring :=
  let len := Z.of_nat (length s) in
  let from := relative_index len start in
  let to := relative_index len finish in
  firstn (Z.to_nat (Z.max (to - from) 0)) (skipn (Z.to_nat from) s).

End JS.
Import JS.

(** ** Entries of a configuration

    The elements of [include], [extra] and [remove] are strings (names of
    transformations or of groups) or inline description objects.  Objects
    are compared by reference ([SameValueZero]), so an object entry is its
    reference; its contents live in the heap. *)

Inductive entry :=
| EStr (name : string)
| EObj (ref : nat).

Definition entry_eqb (a b : entry) : bool :=
  match a, b with
  | EStr s, EStr t => String.eqb s t
  | EObj r, EObj q => Nat.eqb r q
  | _, _ => false
  end.

(** [Array.prototype.includes]. *)
Definition includes (arr : list entry) (x : entry) : bool :=
  existsb (entry_eqb x) arr.

(** [Set.prototype.add] on an insertion-ordered set: a value already
    present keeps its place. *)
Definition Set_add (s : list entry) (x : entry) : list entry :=
  if includes s x then s else s ++ [x].

(** The property key an entry is coerced to when used as [obj[entry]]:
    a plain object stringifies to [[object Object]]. *)
Definition ToPropertyKey (e : entry) : string :=
  match e with
  | EStr s => s
  | EObj _ => "[object Object]"
  end.

(** ** Regular expressions

    The fragment of ECMAScript patterns the catalogue is written in, with
    the backtracking semantics of the language: a matcher takes a state
    and a continuation, a disjunction tries its left alternative first, a
    greedy quantifier tries one more iteration before it tries the
    continuation.  No flags: [^] and [$] assert the two ends of the
    input. *)

Module RegExp.

Inductive pattern :=
| Empty
| Char (c : N)
| WhiteSpaceClass
| CharClass (invert : bool) (members : list N)
| Seq (a b : pattern)
| Alt (a b : pattern)
| Group (n : nat) (a : pattern)
| Plus (a : pattern)
| AssertStart
| AssertEnd.

(** The code units matched by [\s]: WhiteSpace and LineTerminator. *)
Definition isWhiteSpace (c : N) : bool :=
  existsb (N.eqb c)
    [9; 10; 11; 12; 13; 32; 160; 5760; 8232; 8233; 8239; 8287; 12288; 65279]%N
  || ((8192 <=? c) && (c <=? 8202))%N.

Record State := mkState {
  endIndex : nat;
  rest : jsstring;
  captures : list (option jsstring)
}.

Definition Continuation := State -> option State.
Definition Matcher := State -> Continuation -> option State.

Fixpoint set_capture (n : nat) (v : option jsstring)
         (caps : list (option jsstring)) : list (option jsstring) :=
  match n, caps with
  | _, [] => []
  | 0, _ => caps
  | 1, _ :: tl => v :: tl
  | S n', c :: tl => c :: set_capture n' v tl
  end.

Definition clear_captures (inner : list nat) (x : State) : State :=
  mkState (endIndex x) (rest x)
          (fold_left (fun caps n => set_capture n None caps) inner (captures x)).

Fixpoint groups_in (p : pattern) : list nat :=
  match p with
  | Seq a b | Alt a b => groups_in a ++ groups_in b
  | Group n a => n :: groups_in a
  | Plus a => groups_in a
  | _ => []
  end.

Definition CharacterSetMatcher (accept : N -> bool) : Matcher :=
  fun x c =>
    match rest x with
    | [] => None
    | ch :: tl =>
        if accept ch then c (mkState (S (endIndex x)) tl (captures x)) else None
    end.

(** [RepeatMatcher] with [min = 0], no upper bound, greedy.  An
    iteration that consumes nothing is rejected, so every iteration
    shortens the remaining input and [fuel] above its length is never
    exhausted. *)
Fixpoint RepeatMatcher (fuel : nat) (m : Matcher) (inner : list nat)
         (x : State) (c : Continuation) : option State :=
  match fuel with
  | 0 => None
  | S fuel' =>
      let d := fun y =>
        if (endIndex y =? endIndex x)%nat then None
        else RepeatMatcher fuel' m inner y c in
      match m (clear_captures inner x) d with
      | Some z => Some z
      | None => c x
      end
  end.

Fixpoint matcher (p : pattern) : Matcher :=
  fun x c =>
    match p with
    | Empty => c x
    | Char ch => CharacterSetMatcher (N.eqb ch) x c
    | WhiteSpaceClass => CharacterSetMatcher isWhiteSpace x c
    | CharClass invert members =>
        CharacterSetMatcher
          (fun ch => xorb invert (existsb (N.eqb ch) members)) x c
    | Seq a b => matcher a x (fun y => matcher b y c)
    | Alt a b =>
        match matcher a x c with
        | Some z => Some z
        | None => matcher b x c
        end
    | Group n a =>
        matcher a x (fun y =>
          c (mkState (endIndex y) (rest y)
               (set_capture n
                  (Some (firstn (endIndex y - endIndex x) (rest x)))
                  (captures y))))
    | Plus a =>
        matcher a (clear_captures (groups_in a) x) (fun y =>
          RepeatMatcher (S (length (rest y))) (matcher a) (groups_in a) y c)
    | AssertStart => if (endIndex x =? 0)%nat then c x else None
    | AssertEnd => match rest x with [] => c x | _ :: _ => None end
    end.

Record MatchResult := mkMatch {
  index : nat;
  matched : jsstring;
  groups : list (option jsstring)
}.

(** The loop of [RegExpBuiltinExec] for a pattern without the global
    and sticky flags: the leftmost start position that matches. *)
Fixpoint search (p : pattern) (nCaptures : nat) (i : nat)
         (input : jsstring) : option MatchResult :=
  match matcher p (mkState i input (repeat None nCaptures)) Some with
  | Some y => Some (mkMatch i (firstn (endIndex y - i) input) (captures y))
  | None =>
      match input with
      | [] => None
      | _ :: tl => search p nCaptures (S i) tl
      end
  end.

Definition exec (p : pattern) (s : jsstring) : option MatchResult :=
  search p (length (groups_in p)) 0 s.

(** [RegExp.prototype.test]. *)
Definition test (p : pattern) (s : jsstring) : bool :=
  match exec p s with
  | Some _ => true
  | None => false
  end.

Definition isDigit (c : N) : bool := ((48 <=? c) && (c <=? 57))%N.
Definition digit (c : N) : nat := N.to_nat (c - 48).

Definition capture (n : nat) (caps : list (option jsstring)) : jsstring :=
  match nth (n - 1) caps None with
  | Some s => s
  | None => []
  end.

(** [GetSubstitution] without named groups: [$$], [$&], [$`], [$'],
    [$n] and [$nn]; a reference beyond the number of groups stays as
    written, a two-digit one after falling back to its first digit. *)
Fixpoint GetSubstitution (matched str : jsstring) (position : nat)
         (caps : list (option jsstring)) (template : jsstring) : jsstring :=
  let m := length caps in
  match template with
  | [] => []
  | c :: t1 =>
      if negb (c =? 36)%N then c :: GetSubstitution matched str position caps t1
      else
        match t1 with
        | [] => [c]
        | c1 :: t2 =>
            if (c1 =? 36)%N then
              36%N :: GetSubstitution matched str position caps t2
            else if (c1 =? 38)%N then
              matched ++ GetSubstitution matched str position caps t2
            else if (c1 =? 96)%N then
              firstn position str
                ++ GetSubstitution matched str position caps t2
            else if (c1 =? 39)%N then
              skipn (position + length matched) str
                ++ GetSubstitution matched str position caps t2
            else if isDigit c1 then
              let one :=
                if ((1 <=? digit c1) && (digit c1 <=? m))%nat
                then capture (digit c1) caps
                       ++ GetSubstitution matched str position caps t2
                else c :: c1 :: GetSubstitution matched str position caps t2 in
              match t2 with
              | c2 :: t3 =>
                  if isDigit c2 then
                    let nn := 10 * digit c1 + digit c2 in
                    if (nn <=? m)%nat then
                      if (1 <=? nn)%nat
                      then capture nn caps
                             ++ GetSubstitution matched str position caps t3
                      else c :: c1 :: c2
                             :: GetSubstitution matched str position caps t3
                    else one
                  else one
              | [] => one
              end
            else c :: GetSubstitution matched str position caps t1
        end
  end.

(** [String.prototype.replace(regexp, replaceValue)] for a string
    [replaceValue] and a pattern without the global flag: the first
    match is substituted, a string without a match is returned as is. *)
Definition replace (s : jsstring) (p : pattern) (replaceValue : jsstring)
  : jsstring :=
  match exec p s with
  | None => s
  | Some r =>
      firstn (index r) s
        ++ GetSubstitution (matched r) s (index r) (groups r) replaceValue
        ++ skipn (index r + length (matched r)) s
  end.

End RegExp.

(** ** The catalogue *)

(** [from] is a string or a regular expression ([from instanceof RegExp]). *)
Inductive FromPattern :=
| FromString (s : jsstring)
| FromRegExp (r : RegExp.pattern).

Record TextTransformationDescription := mkDescription {
  from : FromPattern;
  to : jsstring
}.

(** [new RegExp( `(^|\\s)${ q }([^${ q }]+)${ q }$` )], for a quote
    character that is not a syntax character of patterns. *)
Definition buildQuotesRegExp (quoteCharacter : N) : RegExp.pattern :=
  RegExp.Seq (RegExp.Group 1 (RegExp.Alt RegExp.AssertStart RegExp.WhiteSpaceClass))
    (RegExp.Seq (RegExp.Char quoteCharacter)
       (RegExp.Seq
          (RegExp.Group 2 (RegExp.Plus (RegExp.CharClass true [quoteCharacter])))
          (RegExp.Seq (RegExp.Char quoteCharacter) RegExp.AssertEnd))).

(** Code units of the straight quote characters, U+0022 and U+0027. *)
Definition quotation_mark : N := 34.
Definition apostrophe : N := 39.

Definition literal (f : string) (t : jsstring) : TextTransformationDescription :=
  mkDescription (FromString (lit f)) t.

(** A [to] template [$1<open>$2<close>]. *)
Definition quoted (q : N) (open close : N) : TextTransformationDescription :=
  mkDescription (FromRegExp (buildQuotesRegExp q))
                (lit "$1" ++ [open] ++ lit "$2" ++ [close]).

(** All named transformations (the glyphs are given by their code units). *)
Definition TRANSFORMATIONS : list (string * TextTransformationDescription) :=
  [ ("copyright", literal "(c)" [169%N]);
    ("registered_trademark", literal "(r)" [174%N]);
    ("trademark", literal "(tm)" [8482%N]);

    ("one_half", literal "1/2" [189%N]);
    ("one_third", literal "1/3" [8531%N]);
    ("two_thirds", literal "2/3" [8532%N]);
    ("one_forth", literal "1/4" [188%N]);
    ("three_quarters", literal "3/4" [190%N]);
    ("less_then_or_equal", literal "<=" [8804%N]);
    ("greater_then_or_equal", literal ">=" [8805%N]);
    ("not_equal", literal "!=" [8800%N]);
    ("arrow_left", literal "<-" [8594%N]);
    ("arrow_right", literal "->" [8800%N]);

    ("horizontal_ellipsis", literal "..." [8230%N]);
    ("en_dash", literal " -- " [32%N; 8211%N; 32%N]);
    ("em_dash", literal " --- " [32%N; 8212%N; 32%N]);

    ("quotes_primary", quoted quotation_mark 8220 8221);
    ("quotes_secondary", quoted apostrophe 8216 8217);

    ("quotes_primary_en_gb", quoted apostrophe 8216 8217);
    ("quotes_secondary_en_gb", quoted quotation_mark 8220 8221);

    ("quotes_primary_pl", quoted quotation_mark 8222 8221);
    ("quotes_secondary_pl", quoted apostrophe 8218 8217) ].

(** Transformation groups. *)
Definition TRANSFORMATION_GROUPS : list (string * list string) :=
  [ ("symbols", [ "copyright"; "registered_trademark"; "trademark" ]);
    ("mathematical",
      [ "one_half"; "one_third"; "two_thirds"; "one_forth"; "three_quarters";
        "less_then_or_equal"; "greater_then_or_equal"; "not_equal";
        "arrow_left"; "arrow_right" ]);
    ("typography", [ "horizontal_ellipsis"; "en_dash"; "em_dash" ]);
    ("quotes", [ "quotes_primary"; "quotes_secondary" ]) ].

(** Set of default transformations provided by the feature. *)
Definition DEFAULT_TRANSFORMATIONS : list entry :=
  [ EStr "symbols"; EStr "mathematical"; EStr "typography"; EStr "quotes" ].

(** ** Configuration resolution *)

(** [extra] and [remove] may be absent ([config.extra || []]). *)
Record TextTransformationConfig := mkConfig {
  include : list entry;
  extra : option (list entry);
  remove : option (list entry)
}.

Definition or_empty (field : option (list entry)) : list entry :=
  match field with
  | Some arr => arr
  | None => []
  end.

Definition isNotRemoved (remove : list entry) (transformation : entry) : bool :=
  negb (includes remove transformation).

(** The inner [for] loop: every member of a group is added to the set. *)
Definition add_members (definedTransformations : list entry)
           (members : list string) : list entry :=
  fold_left (fun s transformation => Set_add s (EStr transformation))
            members definedTransformations.

(** The outer [for] loop over [definitions].  A truthy
    [TRANSFORMATION_GROUPS[ transformationOrGroup ]] is iterated: a group's
    own array is, an inherited member of [Object.prototype] is not
    iterable and [for ... of] throws. *)
Fixpoint expand_loop (definitions : list entry)
         (definedTransformations : list entry) : result (list entry) :=
  match definitions with
  | [] => Ok definedTransformations
  | transformationOrGroup :: more =>
      match Get TRANSFORMATION_GROUPS (ToPropertyKey transformationOrGroup) with
      | Own members =>
          expand_loop more (add_members definedTransformations members)
      | Inherited =>
          Throw (TypeError_not_iterable (ToPropertyKey transformationOrGroup))
      | Undefined =>
          expand_loop more (Set_add definedTransformations transformationOrGroup)
      end
  end.

(** Reads definitions and expands named groups; [Array.from] lists the set
    in insertion order. *)
Definition expandGroupsAndRemoveDuplicates (definitions : list entry)
  : result (list entry) :=
  expand_loop definitions [].

(** The elements of the resolved array: the description object
    [TRANSFORMATIONS[name]] of a named transformation, an inherited member
    of [Object.prototype], or the entry itself. *)
Inductive value :=
| VNamed (name : string)
| VInherited (key : string)
| VString (s : string)
| VObject (ref : nat).

(** [TRANSFORMATIONS[ transformation ] || transformation]. *)
Definition materialize (transformation : entry) : value :=
  match Get TRANSFORMATIONS (ToPropertyKey transformation) with
  | Own _ => VNamed (ToPropertyKey transformation)
  | Inherited => VInherited (ToPropertyKey transformation)
  | Undefined =>
      match transformation with
      | EStr s => VString s
      | EObj ref => VObject ref
      end
  end.

(** Reads text transformation config and returns normalized array of
    transformations objects. *)
Definition getConfiguredTransformations (config : TextTransformationConfig)
  : result (list value) :=
  let extra := or_empty (extra config) in
  let remove := or_empty (remove config) in
  let configured := filter (isNotRemoved remove) (include config ++ extra) in
  bind (expandGroupsAndRemoveDuplicates configured) (fun expanded =>
    Ok (map materialize (filter (isNotRemoved remove) expanded))).

(** The contents of inline description objects, by reference. *)
Definition Heap := nat -> option TextTransformationDescription.

(** The description a resolved element denotes, when it is one. *)
Definition description (heap : Heap) (v : value)
  : option TextTransformationDescription :=
  match v with
  | VNamed name => own_property TRANSFORMATIONS name
  | VObject ref => heap ref
  | VInherited _ | VString _ => None
  end.

(** ** The host editor and the watchers of [init] *)

Section Host.

(** The text attributes of the host (bold, italic, ...), left abstract. *)
Variable Attributes : Type.

(** Modelled from the spec: the host document, which the plugin reaches
    through [editor.model] only: the characters of the block under the
    cursor with their attributes, the offset of the selection's focus
    and the attributes of the selection
    ([currentCursorPosition], [textAttributesAtCursor]). *)
Record Model := mkModel {
  content : list (N * Attributes);
  focus : nat;
  selectionAttributes : Attributes
}.

(** Modelled from the spec: [focus.getShiftedBy( shift )], a position
    [shift] characters away, not before the start of its parent. *)
Definition getShiftedBy (position : nat) (shift : Z) : nat :=
  Z.to_nat (Z.max 0 (Z.of_nat position + shift)).

(** The callback given to [model.enqueueChange]: the range and the text
    it closes over.  The attributes are read when the callback runs. *)
Record Change := mkChange {
  replaceRange : nat * nat;
  textToInsert : jsstring
}.

(** Modelled from the spec: [replaceRange(start, end, newText,
    attributes)], the one mutating primitive of the host, as
    [model.insertContent( writer.createText( textToInsert,
    selection.getAttributes() ), replaceRange )] uses it: the characters
    of the range give way to the new text, which carries the attributes
    of the selection; the focus ends up after the inserted text. *)
Definition insertContent (model : Model) (change : Change) : Model :=
  let (start, finish) := replaceRange change in
  mkModel
    (firstn start (content model)
       ++ map (fun ch => (ch, selectionAttributes model)) (textToInsert change)
       ++ skipn finish (content model))
    (start + length (textToInsert change))
    (selectionAttributes model).

(** A [TextWatcher] with its listener for [matched:data]. *)
Record TextWatcher := mkWatcher {
  testCallback : jsstring -> bool;
  matched_data : Model -> jsstring -> Change
}.

(** The listener registered by [watcher.on( 'matched:data', ... )];
    [text] is [data.text]. *)
Definition listener (textReplacer : jsstring -> jsstring)
           (model : Model) (text : jsstring) : Change :=
  let focus := focus model in
  let textToReplaceLength := length text in
  let textToInsert := textReplacer text in
  mkChange (getShiftedBy focus (- Z.of_nat textToReplaceLength), focus)
           textToInsert.

Definition textReplacer (transformation : TextTransformationDescription)
           (message : jsstring) : jsstring :=
  match from transformation with
  | FromRegExp r => RegExp.replace message r (to transformation)
  | FromString s =>
      slice message 0 (Z.of_nat (length message) - Z.of_nat (length s))
        ++ to transformation
  end.

(** The body of the loop of [init]: one watcher for one transformation. *)
Definition watch (transformation : TextTransformationDescription)
  : TextWatcher :=
  match from transformation with
  | FromRegExp r =>
      mkWatcher (fun text => RegExp.test r text)
                (listener (textReplacer transformation))
  | FromString s =>
      mkWatcher (fun text => endsWith text s)
                (listener (textReplacer transformation))
  end.

Definition init (configuredTransformations : list TextTransformationDescription)
  : list TextWatcher :=
  map watch configuredTransformations.

(** Modelled from the spec: [TextWatcher] (imported from
    ckeditor5-utils), [watchText(probeSource, testPredicate)]: on a data
    change, a watcher applies its predicate to the probe text, the text
    before the cursor in its text node, and, when it holds, delivers
    [matched:data] carrying the matched probe text.  The listener
    enqueues its change; the queue of one event, in the order the
    watchers were created: *)
Fixpoint change_data (watchers : list TextWatcher) (model : Model)
         (text : jsstring) : list Change :=
  match watchers with
  | [] => []
  | watcher :: others =>
      if testCallback watcher text
      then matched_data watcher model text :: change_data others model text
      else change_data others model text
  end.

(** Modelled from the spec: [runAsAtomicBatch]: the enqueued changes run
    one after the other once the event has been delivered. *)
Definition runPendingChanges (model : Model) (pending : list Change) : Model :=
  fold_left insertContent pending model.

(** One text-change event, from the probe text to the document. *)
Definition onTextChanged (watchers : list TextWatcher) (model : Model)
           (text : jsstring) : Model :=
  runPendingChanges model (change_data watchers model text).

(** Characters of a document, without their attributes. *)
Definition plain (model : Model) : jsstring := map fst (content model).

End Host.

(** ** Reference notions the properties are stated with *)

(** What one entry of [definitions] stands for: the members of the group
    it names, or itself. *)
Definition expansion_of (e : entry) : list entry :=
  match own_property TRANSFORMATION_GROUPS (ToPropertyKey e) with
  | Some members => map EStr members
  | None => [e]
  end.

(** A sequence of entries with every group name expanded in place. *)
Definition expansion (definitions : list entry) : list entry :=
  flat_map expansion_of definitions.

(** The elements of a sequence in the order of their first occurrence. *)
Fixpoint first_occurrences (l : list entry) : list entry :=
  match l with
  | [] => []
  | x :: tl => x :: filter (fun y => negb (entry_eqb y x)) (first_occurrences tl)
  end.

Definition value_eqb (a b : value) : bool :=
  match a, b with
  | VNamed s, VNamed t | VInherited s, VInherited t | VString s, VString t =>
      String.eqb s t
  | VObject r, VObject q => Nat.eqb r q
  | _, _ => false
  end.

(** [small] can be obtained from [big] by deleting elements. *)
Fixpoint subsequence (small big : list value) : bool :=
  match small, big with
  | [], _ => true
  | _ :: _, [] => false
  | x :: small', y :: big' =>
      if value_eqb x y then subsequence small' big' else subsequence small big'
  end.

(** An entry that went through resolution as it is. *)
Definition pass_through (e : entry) : value :=
  match e with
  | EStr s => VString s
  | EObj ref => VObject ref
  end.

(** A sequence without the occurrences of one entry. *)
Definition without (g : entry) (l : list entry) : list entry :=
  filter (fun x => negb (entry_eqb x g)) l.

(** A configuration in which an entry is referred to nowhere. *)
Definition drop_reference (g : entry) (config : TextTransformationConfig)
  : TextTransformationConfig :=
  mkConfig (without g (include config))
           (Some (without g (or_empty (extra config))))
           (Some (without g (or_empty (remove config)))).

(** No entry that resolution looks up is a property inherited from
    [Object.prototype]. *)
Definition no_inherited_key (config : TextTransformationConfig) : Prop :=
  forall e,
    In e (include config ++ or_empty (extra config)) ->
    ~ In e (or_empty (remove config)) ->
    inherited (ToPropertyKey e) = false.

(** The resolved descriptions of a configuration all of whose elements
    are description objects. *)
Fixpoint descriptions (heap : Heap) (vs : list value)
  : option (list TextTransformationDescription) :=
  match vs with
  | [] => Some []
  | v :: more =>
      match description heap v, descriptions heap more with
      | Some d, Some ds => Some (d :: ds)
      | _, _ => None
      end
  end.

(** The order of first occurrence in the expansion of the raw
    include-followed-by-extra sequence, kept by the resolved list. *)
Definition keeps_raw_first_occurrence_order (config : TextTransformationConfig)
  : Prop :=
  forall out,
    getConfiguredTransformations config = Ok out ->
    NoDup out /\
    subsequence out
      (map materialize
         (first_occurrences
            (expansion (include config ++ or_empty (extra config))))) = true.

(** Every unknown entry of [include] or [extra] reaches the resolved list. *)
Definition unknown_entries_pass_through (config : TextTransformationConfig)
  : Prop :=
  forall e,
    In e (include config ++ or_empty (extra config)) ->
    own_property TRANSFORMATIONS (ToPropertyKey e) = None ->
    own_property TRANSFORMATION_GROUPS (ToPropertyKey e) = None ->
    exists out,
      getConfiguredTransformations config = Ok out /\ In (pass_through e) out.

(** The part of the quotes pattern after the boundary group:
    the opening quote, the quoted span and the closing quote at the end of
    the input. *)
Definition quoted_span (q : N) : RegExp.pattern :=
  RegExp.Seq (RegExp.Char q)
    (RegExp.Seq (RegExp.Group 2 (RegExp.Plus (RegExp.CharClass true [q])))
       (RegExp.Seq (RegExp.Char q) RegExp.AssertEnd)).

(** The continuation of the second group of the quotes pattern: it
    records the capture and goes on with the closing quote. *)
Definition after_span (q : N) (start : nat) (input : jsstring)
  : RegExp.Continuation :=
  fun y =>
    RegExp.matcher (RegExp.Seq (RegExp.Char q) RegExp.AssertEnd)
      (RegExp.mkState (RegExp.endIndex y) (RegExp.rest y)
         (RegExp.set_capture 2
            (Some (firstn (RegExp.endIndex y - start) input))
            (RegExp.captures y)))
      Some.

Section MatcherProperties.

Variable Attributes : Type.

(** Whether a rule's watcher fires on a probe text. *)
Definition fires (r : TextTransformationDescription) (text : jsstring) : bool :=
  testCallback (watch Attributes r) text.

(** The change a rule's listener enqueues. *)
Definition change_of (r : TextTransformationDescription)
           (model : Model Attributes) (text : jsstring) : Change :=
  matched_data (watch Attributes r) model text.

(** Evaluation stops at the first rule that matches: of two rules that
    both match, only the earlier one emits. *)
Definition first_match_wins (rules : list TextTransformationDescription)
           (model : Model Attributes) (text : jsstring) : Prop :=
  forall before R1 between R2 after,
    rules = before ++ R1 :: between ++ R2 :: after ->
    (forall r, In r before -> fires r text = false) ->
    fires R1 text = true ->
    fires R2 text = true ->
    change_data (init Attributes rules) model text = [change_of R1 model text].

(** The text a rule matched in a probe text: the literal, or the full
    match of the regular expression. *)
Definition matchedText (r : TextTransformationDescription) (text : jsstring)
  : option jsstring :=
  match from r with
  | FromString s => if endsWith text s then Some s else None
  | FromRegExp p => option_map RegExp.matched (RegExp.exec p text)
  end.

(** The one instruction replaces [matchedText.length] characters before
    the cursor. *)
Definition replaces_matched_text_only (r : TextTransformationDescription)
           (model : Model Attributes) (text : jsstring) : Prop :=
  forall matched,
    matchedText r text = Some matched ->
    exists inserted,
      change_data (init Attributes [r]) model text
      = [mkChange (focus model - length matched, focus model) inserted].

(** A probe text ending in [(c)] yields a replace of length 3 inserting
    the copyright sign. *)
Definition copyright_replaces_three (model : Model Attributes)
           (text : jsstring) : Prop :=
  endsWith text (lit "(c)") = true ->
  change_data (init Attributes [literal "(c)" [169%N]]) model text
  = [mkChange (focus model - 3, focus model) [169%N]].

End MatcherProperties.

(** ** The two kinds of rules of the catalogue *)

(** A rule of the catalogue is a literal rule or one of the quotes rules
    built by [buildQuotesRegExp], with a template [$1<open>$2<close>]. *)
Inductive rule_shape :=
| LiteralRule (s t : jsstring)
| QuotesRule (q open close : N).

Definition rule_of_shape (k : rule_shape) : TextTransformationDescription :=
  match k with
  | LiteralRule s t => mkDescription (FromString s) t
  | QuotesRule q open close => quoted q open close
  end.

(** The quote character of a pattern written as [buildQuotesRegExp]
    writes it. *)
Definition quote_of (p : RegExp.pattern) : option N :=
  match p with
  | RegExp.Seq
      (RegExp.Group 1 (RegExp.Alt RegExp.AssertStart RegExp.WhiteSpaceClass))
      (RegExp.Seq (RegExp.Char q)
         (RegExp.Seq
            (RegExp.Group 2 (RegExp.Plus (RegExp.CharClass true [q1])))
            (RegExp.Seq (RegExp.Char q2) RegExp.AssertEnd))) =>
      if ((q =? q1) && (q =? q2))%N then Some q else None
  | _ => None
  end.

(** A character that a template takes as it is, also after [$1]. *)
Definition template_char (c : N) : bool :=
  negb (c =? 36)%N && negb (RegExp.isDigit c).

Definition shape_of (r : TextTransformationDescription) : option rule_shape :=
  match from r with
  | FromString s => Some (LiteralRule s (to r))
  | FromRegExp p =>
      match quote_of p, to r with
      | Some q, [a; b; open; c; d; close] =>
          if ((a =? 36) && (b =? 49) && (c =? 36) && (d =? 50))%N
             && template_char open && template_char close
          then Some (QuotesRule q open close)
          else None
      | _, _ => None
      end
  end.

Fixpoint shapes_of (rules : list TextTransformationDescription)
  : option (list rule_shape) :=
  match rules with
  | [] => Some []
  | r :: more =>
      match shape_of r, shapes_of more with
      | Some k, Some ks => Some (k :: ks)
      | _, _ => None
      end
  end.

(** What a probe text ends with when the rule fires on it, and what the
    replaced text ends with. *)
Definition trigger_suffix (k : rule_shape) : jsstring :=
  match k with
  | LiteralRule s _ => s
  | QuotesRule q _ _ => [q]
  end.

Definition output_suffix (k : rule_shape) : jsstring :=
  match k with
  | LiteralRule _ t => t
  | QuotesRule _ _ close => [close]
  end.

(** One of two strings ends with the other: some text ends with both. *)
Definition comparable (a b : jsstring) : bool := endsWith a b || endsWith b a.

(** No two rules of the list can fire on the same text. *)
Fixpoint exclusive (ks : list rule_shape) : bool :=
  match ks with
  | [] => true
  | k :: more =>
      forallb (fun k' => negb (comparable (trigger_suffix k) (trigger_suffix k')))
              more
      && exclusive more
  end.

(** No rule of the list can fire on a text another one, or itself, has
    just produced. *)
Definition never_chains (ks : list rule_shape) : bool :=
  forallb (fun k =>
    forallb (fun k' => negb (comparable (output_suffix k) (trigger_suffix k')))
            ks) ks.

(** * Properties *)

Unset Implicit Arguments.

(** ** Sets of entries *)

Lemma entry_eqb_eq (a b : entry) : entry_eqb a b = true <-> a = b.
Proof.
  destruct a as [s|r], b as [t|q]; simpl; split; intro H;
    try discriminate; try (inversion H; subst).
  - apply String.eqb_eq in H. now subst.
  - apply String.eqb_refl.
  - apply Nat.eqb_eq in H. now subst.
  - apply Nat.eqb_refl.
Qed.

Lemma entry_eqb_refl (a : entry) : entry_eqb a a = true.
Proof. now apply entry_eqb_eq. Qed.

Lemma entry_eqb_neq (a b : entry) : entry_eqb a b = false <-> a <> b.
Proof.
  split.
  - intros H E. apply entry_eqb_eq in E. congruence.
  - intro H. destruct (entry_eqb a b) eqn:E; [|reflexivity].
    apply entry_eqb_eq in E. contradiction.
Qed.

Lemma includes_In (arr : list entry) (x : entry) :
  includes arr x = true <-> In x arr.
Proof.
  unfold includes. rewrite existsb_exists. split.
  - intros [y [Hy E]]. apply entry_eqb_eq in E. now subst.
  - intro H. exists x. split; [assumption | apply entry_eqb_refl].
Qed.

Lemma includes_not_In (arr : list entry) (x : entry) :
  includes arr x = false <-> ~ In x arr.
Proof.
  rewrite <- includes_In. destruct (includes arr x); split; congruence.
Qed.

Lemma isNotRemoved_true (rm : list entry) (x : entry) :
  isNotRemoved rm x = true <-> ~ In x rm.
Proof.
  unfold isNotRemoved. rewrite negb_true_iff. apply includes_not_In.
Qed.

Lemma Set_add_In (s : list entry) (x y : entry) :
  In y (Set_add s x) <-> In y s \/ y = x.
Proof.
  unfold Set_add. destruct (includes s x) eqn:E.
  - apply includes_In in E. split; [tauto|]. intros [H|H]; [|subst]; assumption.
  - rewrite in_app_iff. simpl. intuition.
Qed.

Lemma Set_add_NoDup (s : list entry) (x : entry) :
  NoDup s -> NoDup (Set_add s x).
Proof.
  intro H. unfold Set_add. destruct (includes s x) eqn:E; [assumption|].
  apply includes_not_In in E.
  apply NoDup_app; [assumption | repeat constructor; simpl; tauto |].
  intros y Hy [->|[]]. contradiction.
Qed.

Lemma fold_Set_add_NoDup (l s : list entry) :
  NoDup s -> NoDup (fold_left Set_add l s).
Proof.
  revert s. induction l as [|x l IH]; intros s H; simpl; [assumption|].
  apply IH, Set_add_NoDup, H.
Qed.

Lemma fold_Set_add_In (l s : list entry) (y : entry) :
  In y (fold_left Set_add l s) <-> In y s \/ In y l.
Proof.
  revert s. induction l as [|x l IH]; intro s; simpl; [tauto|].
  rewrite IH, Set_add_In. intuition.
Qed.

Lemma filter_filter_and {A} (p q : A -> bool) (l : list A) :
  filter p (filter q l) = filter (fun y => q y && p y) l.
Proof.
  induction l as [|a l IH]; simpl; [reflexivity|].
  destruct (q a); simpl; [destruct (p a)|]; now rewrite IH.
Qed.

(** The set built by successive [add]s lists its elements in the order
    of their first occurrence. *)
Lemma fold_Set_add_first_occurrences (l s : list entry) :
  fold_left Set_add l s
  = s ++ filter (fun y => negb (includes s y)) (first_occurrences l).
Proof.
  revert s. induction l as [|x l IH]; intro s; simpl.
  - now rewrite app_nil_r.
  - rewrite IH. unfold Set_add. destruct (includes s x) eqn:E; simpl.
    + f_equal. rewrite filter_filter_and. apply filter_ext_in.
      intros y _. destruct (entry_eqb y x) eqn:Eyx; simpl; [|reflexivity].
      apply entry_eqb_eq in Eyx. subst. now rewrite E.
    + rewrite <- app_assoc. simpl. f_equal. f_equal.
      rewrite filter_filter_and. apply filter_ext.
      intro y. unfold includes. rewrite existsb_app. simpl.
      rewrite orb_false_r, negb_orb. apply andb_comm.
Qed.

Lemma first_occurrences_of_fold (l : list entry) :
  fold_left Set_add l [] = first_occurrences l.
Proof.
  rewrite fold_Set_add_first_occurrences. simpl.
  induction (first_occurrences l) as [|a t IH]; simpl; [reflexivity|].
  now rewrite IH.
Qed.

(** ** Expansion of groups *)

Lemma add_members_fold (s : list entry) (members : list string) :
  add_members s members = fold_left Set_add (map EStr members) s.
Proof.
  unfold add_members. revert s.
  induction members as [|m ms IH]; intro s; simpl; [reflexivity | apply IH].
Qed.

Lemma Get_Own {A} (own : list (string * A)) (key : string) (a : A) :
  Get own key = Own a <-> own_property own key = Some a.
Proof.
  unfold Get. destruct (own_property own key).
  - split; intro H; inversion H; reflexivity.
  - destruct (inherited key); split; discriminate.
Qed.

Lemma Get_Undefined {A} (own : list (string * A)) (key : string) :
  Get own key = Undefined <->
  own_property own key = None /\ inherited key = false.
Proof.
  unfold Get. destruct (own_property own key).
  - split; [discriminate | intros [H _]; discriminate].
  - destruct (inherited key); split; try discriminate; try tauto.
    intros [_ H]. discriminate.
Qed.

(** The two nested loops add, in order, the expansion of the definitions. *)
Lemma expand_loop_fold (definitions s s' : list entry) :
  expand_loop definitions s = Ok s' ->
  s' = fold_left Set_add (expansion definitions) s.
Proof.
  revert s. induction definitions as [|e more IH]; intros s H; simpl in *.
  - now inversion H.
  - unfold expansion_of. rewrite fold_left_app.
    destruct (Get TRANSFORMATION_GROUPS (ToPropertyKey e)) as [members| |] eqn:G.
    + apply Get_Own in G. rewrite G, <- add_members_fold. now apply IH.
    + discriminate.
    + apply Get_Undefined in G. destruct G as [G _]. rewrite G. simpl.
      now apply IH.
Qed.

(** The loops run to completion unless a definition names an inherited
    property. *)
Lemma expand_loop_total (definitions s : list entry) :
  (forall e, In e definitions -> inherited (ToPropertyKey e) = false) ->
  exists s', expand_loop definitions s = Ok s'.
Proof.
  revert s. induction definitions as [|e more IH]; intros s H; simpl.
  - now exists s.
  - assert (He : inherited (ToPropertyKey e) = false) by (apply H; now left).
    assert (Hm : forall e', In e' more -> inherited (ToPropertyKey e') = false)
      by (intros e' He'; apply H; now right).
    unfold Get. rewrite He.
    destruct (own_property TRANSFORMATION_GROUPS (ToPropertyKey e));
      now apply IH.
Qed.

Lemma expandGroupsAndRemoveDuplicates_first_occurrences
      (definitions expanded : list entry) :
  expandGroupsAndRemoveDuplicates definitions = Ok expanded ->
  expanded = first_occurrences (expansion definitions).
Proof.
  intro H. apply expand_loop_fold in H.
  now rewrite first_occurrences_of_fold in H.
Qed.

Lemma first_occurrences_In (l : list entry) (x : entry) :
  In x (first_occurrences l) <-> In x l.
Proof.
  rewrite <- first_occurrences_of_fold, fold_Set_add_In. simpl. tauto.
Qed.

Lemma first_occurrences_NoDup (l : list entry) : NoDup (first_occurrences l).
Proof.
  rewrite <- first_occurrences_of_fold. apply fold_Set_add_NoDup. constructor.
Qed.

(** ** Materialisation *)

Lemma own_property_In {A} (own : list (string * A)) (key : string) (a : A) :
  own_property own key = Some a -> In (key, a) own.
Proof.
  induction own as [|[k b] own IH]; simpl; [discriminate|].
  destruct (String.eqb key k) eqn:E.
  - apply String.eqb_eq in E. intro H. inversion H. subst. now left.
  - intro H. right. now apply IH.
Qed.

Lemma object_key_not_named (ref : nat) : materialize (EObj ref) = VObject ref.
Proof. reflexivity. Qed.

Lemma materialize_EStr (name : string) :
  materialize (EStr name) = VNamed name
  \/ materialize (EStr name) = VInherited name
  \/ materialize (EStr name) = VString name.
Proof.
  unfold materialize. simpl.
  destruct (Get TRANSFORMATIONS name); auto.
Qed.

Lemma materialize_inj (a b : entry) : materialize a = materialize b -> a = b.
Proof.
  destruct a as [s|r], b as [t|q]; rewrite ?object_key_not_named; intro H.
  - destruct (materialize_EStr s) as [Hs|[Hs|Hs]],
             (materialize_EStr t) as [Ht|[Ht|Ht]];
      rewrite Hs, Ht in H; congruence.
  - destruct (materialize_EStr s) as [Hs|[Hs|Hs]]; rewrite Hs in H; discriminate.
  - destruct (materialize_EStr t) as [Ht|[Ht|Ht]]; rewrite Ht in H; discriminate.
  - congruence.
Qed.

Lemma map_materialize_In (l : list entry) (e : entry) :
  In (materialize e) (map materialize l) <-> In e l.
Proof.
  rewrite in_map_iff. split.
  - intros [x [E Hx]]. apply materialize_inj in E. now subst.
  - intro H. now exists e.
Qed.

Lemma map_materialize_NoDup (l : list entry) :
  NoDup l -> NoDup (map materialize l).
Proof.
  induction 1 as [|x l Hx Hl IH]; simpl; constructor; [|assumption].
  now rewrite map_materialize_In.
Qed.

(** Every member of a group is a named transformation, and is not itself
    the name of a group. *)
Lemma group_members_named (group member : string) (members : list string) :
  own_property TRANSFORMATION_GROUPS group = Some members ->
  In member members ->
  materialize (EStr member) = VNamed member
  /\ expansion_of (EStr member) = [EStr member].
Proof.
  intros G M. apply own_property_In in G.
  pose (named := fun m : string =>
          match own_property TRANSFORMATIONS m,
                own_property TRANSFORMATION_GROUPS m with
          | Some _, None => true
          | _, _ => false
          end).
  assert (All : forallb (fun gm => forallb named (snd gm))
                        TRANSFORMATION_GROUPS = true) by reflexivity.
  rewrite forallb_forall in All. specialize (All _ G).
  cbv beta in All. unfold snd in All.
  rewrite forallb_forall in All. specialize (All _ M).
  unfold named in All.
  unfold materialize, expansion_of, Get. simpl ToPropertyKey.
  destruct (own_property TRANSFORMATIONS member);
    [|discriminate All].
  destruct (own_property TRANSFORMATION_GROUPS member);
    [discriminate All|].
  split; reflexivity.
Qed.

(** ** Resolution as a composition of its steps *)

Lemma getConfiguredTransformations_steps
      (config : TextTransformationConfig) (out : list value) :
  getConfiguredTransformations config = Ok out ->
  out = map materialize
          (filter (isNotRemoved (or_empty (remove config)))
             (first_occurrences
                (expansion
                   (filter (isNotRemoved (or_empty (remove config)))
                      (include config ++ or_empty (extra config)))))).
Proof.
  unfold getConfiguredTransformations, bind. intro H.
  destruct (expandGroupsAndRemoveDuplicates _) as [expanded|] eqn:E;
    [|discriminate].
  apply expandGroupsAndRemoveDuplicates_first_occurrences in E.
  inversion H. now subst.
Qed.

Lemma getConfiguredTransformations_total (config : TextTransformationConfig) :
  no_inherited_key config ->
  exists out, getConfiguredTransformations config = Ok out.
Proof.
  intro H. unfold getConfiguredTransformations, expandGroupsAndRemoveDuplicates.
  destruct (expand_loop_total
              (filter (isNotRemoved (or_empty (remove config)))
                 (include config ++ or_empty (extra config))) [])
    as [s' Hs'].
  - intros e He. apply filter_In in He. destruct He as [He Hr].
    apply isNotRemoved_true in Hr. now apply H.
  - rewrite Hs'. simpl. eauto.
Qed.

Lemma materialize_named (e : entry) (name : string) :
  materialize e = VNamed name -> e = EStr name.
Proof.
  destruct e as [s|r]; rewrite ?object_key_not_named; [|discriminate].
  destruct (materialize_EStr s) as [H|[H|H]]; rewrite H; congruence.
Qed.

Lemma value_eqb_refl (v : value) : value_eqb v v = true.
Proof.
  destruct v; simpl; try apply String.eqb_refl. apply Nat.eqb_refl.
Qed.

Lemma subsequence_tail (x : value) (small big : list value) :
  subsequence (x :: small) big = true -> subsequence small big = true.
Proof.
  revert x small. induction big as [|y big IH]; intros x small H.
  - discriminate.
  - simpl in H. destruct small as [|z small]; [reflexivity|].
    simpl. destruct (value_eqb x y).
    + destruct (value_eqb z y); [now apply IH with (x := z) | assumption].
    + destruct (value_eqb z y); [apply IH in H; now apply IH with (x := z)
                                | now apply IH with (x := x)].
Qed.

Lemma subsequence_filter (p : entry -> bool) (l : list entry) :
  subsequence (map materialize (filter p l)) (map materialize l) = true.
Proof.
  induction l as [|x l IH]; simpl; [reflexivity|].
  destruct (p x); simpl.
  - now rewrite value_eqb_refl.
  - destruct (map materialize (filter p l)) as [|y s] eqn:E; [reflexivity|].
    destruct (value_eqb y (materialize x)); [|assumption].
    now apply subsequence_tail with (x := y).
Qed.

(** An expansion holds no group name. *)
Lemma expansion_without_group_names
      (group : string) (members : list string) (definitions : list entry) :
  own_property TRANSFORMATION_GROUPS group = Some members ->
  ~ In (EStr group) (expansion definitions).
Proof.
  intros G H. unfold expansion in H. apply in_flat_map in H.
  destruct H as [e [_ He]]. unfold expansion_of in He.
  destruct (own_property TRANSFORMATION_GROUPS (ToPropertyKey e))
    as [ms|] eqn:Ge.
  - apply in_map_iff in He. destruct He as [m [Em Hm]]. inversion Em. subst m.
    destruct (group_members_named _ _ _ Ge Hm) as [_ X].
    unfold expansion_of in X. simpl ToPropertyKey in X. rewrite G in X.
    apply (f_equal (@length entry)) in X. rewrite length_map in X.
    apply own_property_In in G.
    assert (All : forallb (fun gm => (2 <=? length (snd gm))%nat)
                          TRANSFORMATION_GROUPS = true) by reflexivity.
    rewrite forallb_forall in All. specialize (All _ G).
    cbv beta in All. unfold snd in All. rewrite X in All. discriminate All.
  - destruct He as [He|[]]. subst e. cbn [ToPropertyKey] in Ge. congruence.
Qed.

(** ** Configuration resolution: the stated properties *)

(** C4. No entry listed in [remove] occurs in the resolved list, whether it
    was listed in [include] or [extra] or reached through a group: the
    list is the expansion of the raw entries that are not removed,
    filtered by [remove] once more; in particular the named rule of a
    removed name is absent. *)
Theorem removed_names_absent
        (config : TextTransformationConfig) (out : list value) (name : string) :
  getConfiguredTransformations config = Ok out ->
  In (EStr name) (or_empty (remove config)) ->
  ~ In (VNamed name) out
  /\ ~ In (materialize (EStr name)) out
  /\ out = map materialize
             (filter (isNotRemoved (or_empty (remove config)))
                (first_occurrences
                   (expansion
                      (filter (isNotRemoved (or_empty (remove config)))
                         (include config ++ or_empty (extra config)))))).
Proof.
  intros H R. apply getConfiguredTransformations_steps in H.
  assert (A : ~ In (materialize (EStr name)) out).
  { rewrite H, map_materialize_In, filter_In, isNotRemoved_true. tauto. }
  repeat split; [|assumption|assumption].
  intro V. apply A. rewrite H in V. apply in_map_iff in V.
  destruct V as [e [E He]]. pose proof (materialize_named _ _ E) as N.
  subst e. rewrite E. rewrite H. apply in_map_iff. now exists (EStr name).
Qed.

Lemma removed_names_absent_witness :
  let config := mkConfig [EStr "symbols"] None (Some [EStr "copyright"]) in
  let out := [VNamed "registered_trademark"; VNamed "trademark"] in
  getConfiguredTransformations config = Ok out
  /\ In (EStr "copyright") (or_empty (remove config))
  /\ ~ In (VNamed "copyright") out.
Proof.
  intros config out.
  assert (H : getConfiguredTransformations config = Ok out) by reflexivity.
  assert (R : In (EStr "copyright") (or_empty (remove config)))
    by (simpl; auto).
  split; [exact H | split; [exact R |]].
  exact (proj1 (removed_names_absent config out "copyright" H R)).
Defined.

(** C5, as stated, fails: with a group name in [remove], entries listed
    after the group keep their own order, not the one the expansion of the
    raw sequence would give them. *)
Lemma raw_first_occurrence_order_counterexample :
  ~ keeps_raw_first_occurrence_order
      (mkConfig [EStr "symbols"; EStr "trademark"; EStr "copyright"]
                None (Some [EStr "symbols"])).
Proof.
  intro H.
  specialize (H [VNamed "trademark"; VNamed "copyright"] eq_refl).
  destruct H as [_ H]. vm_compute in H. discriminate H.
Qed.

(** C5, amended. The resolved list has no two equal elements, and lists
    the surviving entries in the order of their first occurrence in the
    expansion of the include-followed-by-extra sequence from which the raw
    entries listed in [remove] have been dropped. *)
Theorem resolved_list_duplicate_free
        (config : TextTransformationConfig) (out : list value) :
  getConfiguredTransformations config = Ok out ->
  let remove := or_empty (remove config) in
  let configured :=
    filter (isNotRemoved remove) (include config ++ or_empty (extra config)) in
  NoDup out
  /\ out = map materialize
             (filter (isNotRemoved remove)
                (first_occurrences (expansion configured)))
  /\ subsequence out
       (map materialize (first_occurrences (expansion configured))) = true.
Proof.
  intros H remove configured.
  apply getConfiguredTransformations_steps in H. fold remove configured in H.
  subst out. repeat split.
  - apply map_materialize_NoDup, NoDup_filter, first_occurrences_NoDup.
  - apply subsequence_filter.
Qed.

Lemma resolved_list_duplicate_free_witness :
  let config :=
    mkConfig [EStr "symbols"; EStr "trademark"; EObj 7; EStr "copyright"]
             (Some [EObj 7; EObj 8]) (Some [EStr "symbols"]) in
  let out := [VNamed "trademark"; VObject 7; VNamed "copyright"; VObject 8] in
  getConfiguredTransformations config = Ok out /\ NoDup out.
Proof.
  intros config out.
  assert (H : getConfiguredTransformations config = Ok out) by reflexivity.
  split; [exact H |].
  exact (proj1 (resolved_list_duplicate_free config out H)).
Defined.

(** C7. [include: [ 'mathematical' ]] alone resolves to the ten members of
    the group, in the order the group lists them. *)
Theorem mathematical_group_order :
  getConfiguredTransformations (mkConfig [EStr "mathematical"] None None)
  = Ok [ VNamed "one_half"; VNamed "one_third"; VNamed "two_thirds";
         VNamed "one_forth"; VNamed "three_quarters";
         VNamed "less_then_or_equal"; VNamed "greater_then_or_equal";
         VNamed "not_equal"; VNamed "arrow_left"; VNamed "arrow_right" ].
Proof. reflexivity. Qed.

(** C8, as stated, fails: an unknown entry that is also listed in
    [remove] does not reach the resolved list. *)
Lemma unknown_entry_removed_counterexample :
  ~ unknown_entries_pass_through
      (mkConfig [EStr "foo"] None (Some [EStr "foo"])).
Proof.
  intro H.
  destruct (H (EStr "foo")) as [out [E I]];
    [simpl; auto | reflexivity | reflexivity |].
  vm_compute in E. inversion E. subst out. destruct I.
Qed.

(** C8, amended. An entry of [include] or [extra] that is neither a
    built-in transformation name nor a group name, and is not listed in
    [remove], passes through unchanged into the resolved list, and
    resolution raises no error, provided no entry names a property
    inherited from [Object.prototype]. *)
Theorem unknown_entry_passes_through
        (config : TextTransformationConfig) (e : entry) :
  In e (include config ++ or_empty (extra config)) ->
  own_property TRANSFORMATIONS (ToPropertyKey e) = None ->
  own_property TRANSFORMATION_GROUPS (ToPropertyKey e) = None ->
  ~ In e (or_empty (remove config)) ->
  no_inherited_key config ->
  exists out,
    getConfiguredTransformations config = Ok out /\ In (pass_through e) out.
Proof.
  intros I T G R P.
  destruct (getConfiguredTransformations_total config P) as [out H].
  exists out. split; [assumption|].
  apply getConfiguredTransformations_steps in H.
  assert (M : materialize e = pass_through e).
  { unfold materialize, Get. rewrite T, (P e I R). reflexivity. }
  rewrite <- M, H, map_materialize_In, filter_In, isNotRemoved_true.
  split; [|assumption].
  rewrite first_occurrences_In. unfold expansion. apply in_flat_map.
  exists e. split.
  - rewrite filter_In, isNotRemoved_true. tauto.
  - unfold expansion_of. rewrite G. now left.
Qed.

Lemma unknown_entry_passes_through_witness :
  let config :=
    mkConfig [EStr "symbols"; EStr "my_rule"] (Some [EObj 3])
             (Some [EStr "trademark"]) in
  exists out,
    getConfiguredTransformations config = Ok out /\ In (VString "my_rule") out.
Proof.
  intro config.
  apply (@unknown_entry_passes_through config (EStr "my_rule")).
  - simpl. auto.
  - reflexivity.
  - reflexivity.
  - simpl. intros [H|[]]. discriminate H.
  - intros e He _. simpl in He.
    destruct He as [<-|[<-|[<-|[]]]]; reflexivity.
Defined.

Lemma without_In (g x : entry) (l : list entry) :
  In x (without g l) <-> In x l /\ x <> g.
Proof.
  unfold without. rewrite filter_In, negb_true_iff, entry_eqb_neq. tauto.
Qed.

(** A group name in [remove] has the effect of deleting the references to
    the group from [include] and [extra]. *)
Lemma group_removal_drops_reference
      (config : TextTransformationConfig) (group : string)
      (members : list string) :
  own_property TRANSFORMATION_GROUPS group = Some members ->
  In (EStr group) (or_empty (remove config)) ->
  getConfiguredTransformations config
  = getConfiguredTransformations (drop_reference (EStr group) config).
Proof.
  intros G R. unfold getConfiguredTransformations, drop_reference.
  cbn [include extra remove or_empty].
  set (rm := or_empty (remove config)) in *.
  set (raw := include config ++ or_empty (extra config)).
  assert (E : filter (isNotRemoved (without (EStr group) rm))
                     (without (EStr group) (include config)
                        ++ without (EStr group) (or_empty (extra config)))
              = filter (isNotRemoved rm) raw).
  { unfold without at 2 3. rewrite <- filter_app. fold raw.
    rewrite filter_filter_and. apply filter_ext. intro x.
    destruct (entry_eqb x (EStr group)) eqn:Q; cbn [negb andb].
    - apply entry_eqb_eq in Q. subst x. symmetry.
      destruct (isNotRemoved rm (EStr group)) eqn:N; [|reflexivity].
      apply isNotRemoved_true in N. contradiction.
    - apply entry_eqb_neq in Q.
      destruct (isNotRemoved rm x) eqn:N.
      + apply isNotRemoved_true. apply isNotRemoved_true in N.
        rewrite without_In. tauto.
      + destruct (isNotRemoved (without (EStr group) rm) x) eqn:N';
          [|reflexivity].
        apply isNotRemoved_true in N'. rewrite without_In in N'.
        assert (X : ~ In x rm) by tauto.
        apply isNotRemoved_true in X. congruence. }
  rewrite E.
  destruct (expandGroupsAndRemoveDuplicates (filter (isNotRemoved rm) raw))
    as [expanded|] eqn:X; [|reflexivity].
  cbn [bind]. f_equal. f_equal. apply filter_ext_in. intros x Hx.
  apply expandGroupsAndRemoveDuplicates_first_occurrences in X. subst expanded.
  rewrite first_occurrences_In in Hx.
  assert (Q : x <> EStr group).
  { intros ->. exact (expansion_without_group_names group members _ G Hx). }
  destruct (isNotRemoved rm x) eqn:N.
  - symmetry. apply isNotRemoved_true. apply isNotRemoved_true in N.
    rewrite without_In. tauto.
  - destruct (isNotRemoved (without (EStr group) rm) x) eqn:N';
      [|reflexivity].
    apply isNotRemoved_true in N'. rewrite without_In in N'.
    assert (Y : ~ In x rm) by tauto.
    apply isNotRemoved_true in Y. congruence.
Qed.

(** C10. A group name in [remove] removes the references to the group
    from [include] and [extra] before they are expanded, and nothing
    else: the resolved list is the one of the configuration that refers
    to the group nowhere, and a member of the group that is listed under
    its own name, and is not itself in [remove], is in the resolved
    list. *)
Theorem group_removal_keeps_listed_member
        (config : TextTransformationConfig) (group member : string)
        (members : list string) (out : list value) :
  own_property TRANSFORMATION_GROUPS group = Some members ->
  In member members ->
  In (EStr member) (include config ++ or_empty (extra config)) ->
  In (EStr group) (or_empty (remove config)) ->
  ~ In (EStr member) (or_empty (remove config)) ->
  getConfiguredTransformations config = Ok out ->
  In (VNamed member) out
  /\ getConfiguredTransformations (drop_reference (EStr group) config) = Ok out.
Proof.
  intros G M I Rg Rm H. split.
  - apply getConfiguredTransformations_steps in H.
    destruct (group_members_named _ _ _ G M) as [N X].
    rewrite <- N, H, map_materialize_In, filter_In, isNotRemoved_true.
    split; [|assumption].
    rewrite first_occurrences_In. unfold expansion. apply in_flat_map.
    exists (EStr member). split.
    + rewrite filter_In, isNotRemoved_true. tauto.
    + rewrite X. now left.
  - now rewrite <- (group_removal_drops_reference config group members G Rg).
Qed.

Lemma group_removal_keeps_listed_member_witness :
  let config :=
    mkConfig [EStr "symbols"; EStr "trademark"] None (Some [EStr "symbols"]) in
  getConfiguredTransformations config = Ok [VNamed "trademark"]
  /\ In (VNamed "trademark") [VNamed "trademark"].
Proof.
  intro config.
  assert (H : getConfiguredTransformations config = Ok [VNamed "trademark"])
    by reflexivity.
  split; [exact H |].
  refine (proj1 (@group_removal_keeps_listed_member config "symbols" "trademark"
                   [ "copyright"; "registered_trademark"; "trademark" ]
                   [VNamed "trademark"] eq_refl _ _ _ _ H)).
  - simpl. auto.
  - simpl. auto.
  - simpl. auto.
  - simpl. intros [E|[]]. discriminate E.
Defined.

(** ** Strings *)

Lemma jsstring_eqb_eq (a b : jsstring) : jsstring_eqb a b = true <-> a = b.
Proof.
  revert b. induction a as [|x a IH]; intros [|y b]; simpl;
    try (split; [discriminate | discriminate]); try tauto.
  rewrite andb_true_iff, N.eqb_eq, IH. split.
  - intros [-> ->]. reflexivity.
  - intro H. inversion H. tauto.
Qed.

(** [endsWith] holds exactly of the strings that end with the literal. *)
Lemma endsWith_suffix (text s : jsstring) :
  endsWith text s = true <-> exists prefix, text = prefix ++ s.
Proof.
  unfold endsWith. rewrite andb_true_iff, Nat.leb_le, jsstring_eqb_eq. split.
  - intros [L E]. exists (firstn (length text - length s) text).
    rewrite <- (firstn_skipn (length text - length s) text) at 1.
    now rewrite E.
  - intros [prefix ->]. rewrite length_app. split; [lia|].
    replace (length prefix + length s - length s) with (length prefix + 0) by lia.
    now rewrite skipn_app, Nat.add_0_r, skipn_all, Nat.sub_diag.
Qed.

(** [message.slice( 0, message.length - from.length )] is the part of the
    message before the literal. *)
Lemma slice_prefix (prefix s : jsstring) :
  slice (prefix ++ s) 0
        (Z.of_nat (length (prefix ++ s)) - Z.of_nat (length s)) = prefix.
Proof.
  unfold slice, relative_index. rewrite length_app.
  replace (Z.of_nat (length prefix + length s) - Z.of_nat (length s))%Z
    with (Z.of_nat (length prefix)) by lia.
  change (0 <? 0)%Z with false. cbv iota.
  destruct (Z.of_nat (length prefix) <? 0)%Z eqn:E; [apply Z.ltb_lt in E; lia|].
  rewrite Z.min_l by lia. rewrite Z.min_l by lia.
  rewrite Z.sub_0_r, Z.max_l by lia. rewrite Nat2Z.id. simpl.
  rewrite firstn_app, Nat.sub_diag, firstn_all. simpl. apply app_nil_r.
Qed.

Lemma getShiftedBy_back (position n : nat) :
  getShiftedBy position (- Z.of_nat n) = position - n.
Proof. unfold getShiftedBy. lia. Qed.

(** ** The watchers of [init] *)

Section Watchers.

Variable Attributes : Type.
Implicit Types (model : Model Attributes) (text : jsstring)
         (r : TextTransformationDescription).

Lemma testCallback_watch r text :
  fires Attributes r text
  = match from r with
    | FromRegExp p => RegExp.test p text
    | FromString s => endsWith text s
    end.
Proof. unfold fires, watch. destruct (from r); reflexivity. Qed.

Lemma change_of_watch r model text :
  change_of r model text
  = mkChange (focus model - length text, focus model) (textReplacer r text).
Proof.
  unfold change_of, watch.
  destruct (from r); simpl; unfold listener; now rewrite getShiftedBy_back.
Qed.

Lemma change_data_cons r rules model text :
  change_data (init Attributes (r :: rules)) model text
  = if fires Attributes r text
    then change_of r model text :: change_data (init Attributes rules) model text
    else change_data (init Attributes rules) model text.
Proof. reflexivity. Qed.

(** The queue of an event holds the change of every rule that fires,
    in the order of the rules. *)
Lemma change_data_filter rules model text :
  change_data (init Attributes rules) model text
  = map (fun r => change_of r model text)
        (filter (fun r => fires Attributes r text) rules).
Proof.
  induction rules as [|r rules IH]; [reflexivity|].
  rewrite change_data_cons. simpl filter.
  destruct (fires Attributes r text); simpl; now rewrite IH.
Qed.

Lemma change_data_silent rules model text :
  (forall r, In r rules -> fires Attributes r text = false) ->
  change_data (init Attributes rules) model text = [].
Proof.
  intro H. rewrite change_data_filter.
  replace (filter (fun r => fires Attributes r text) rules) with
    (@nil TextTransformationDescription); [reflexivity|].
  symmetry. induction rules as [|r rules IH]; [reflexivity|].
  simpl. rewrite (H r (or_introl eq_refl)). apply IH.
  intros r' Hr'. apply H. now right.
Qed.

Lemma change_data_app rules1 rules2 model text :
  change_data (init Attributes (rules1 ++ rules2)) model text
  = change_data (init Attributes rules1) model text
      ++ change_data (init Attributes rules2) model text.
Proof.
  rewrite !change_data_filter, filter_app, map_app. reflexivity.
Qed.

(** C9. When no active rule matches the probe text, no change is
    enqueued and the document is left as it was. *)
Theorem no_match_no_change rules model text :
  (forall r, In r rules -> fires Attributes r text = false) ->
  change_data (init Attributes rules) model text = []
  /\ onTextChanged (init Attributes rules) model text = model.
Proof.
  intro H. pose proof (change_data_silent rules model text H) as E.
  split; [assumption|]. unfold onTextChanged. now rewrite E.
Qed.

(** C1, amended. Every rule that matches the probe text enqueues its own
    replace instruction, in registry order: when an earlier rule [R1]
    and a later rule [R2] both match, the instruction of [R1] is the
    first one of the event and the instruction of [R2] follows it. *)
Theorem every_matching_rule_emits
        rules before R1 between R2 after model text :
  rules = before ++ R1 :: between ++ R2 :: after ->
  (forall r, In r before -> fires Attributes r text = false) ->
  fires Attributes R1 text = true ->
  fires Attributes R2 text = true ->
  change_data (init Attributes rules) model text
  = change_of R1 model text
      :: change_data (init Attributes (between ++ R2 :: after)) model text
  /\ In (change_of R2 model text)
        (change_data (init Attributes (between ++ R2 :: after)) model text)
  /\ change_data (init Attributes rules) model text
     = map (fun r => change_of r model text)
           (filter (fun r => fires Attributes r text) rules).
Proof.
  intros -> B F1 F2. repeat split.
  - rewrite change_data_app, (change_data_silent before model text B).
    change ([] ++ ?l) with l. rewrite change_data_cons, F1. reflexivity.
  - rewrite change_data_app, in_app_iff. right.
    rewrite change_data_cons, F2. now left.
  - apply change_data_filter.
Qed.

End Watchers.

Section Replacement.

Variable Attributes : Type.
Implicit Types (model : Model Attributes) (text : jsstring)
         (r : TextTransformationDescription).

Lemma test_exec (p : RegExp.pattern) text :
  RegExp.test p text = true -> exists m, RegExp.exec p text = Some m.
Proof.
  unfold RegExp.test. destruct (RegExp.exec p text) as [m|];
    [eauto | discriminate].
Qed.

Lemma onTextChanged_single r model text :
  fires Attributes r text = true ->
  onTextChanged (init Attributes [r]) model text
  = insertContent model (change_of r model text).
Proof.
  intro F. unfold onTextChanged. rewrite change_data_cons, F. reflexivity.
Qed.

Lemma plain_insertContent model (start finish : nat) (inserted : jsstring) :
  plain (insertContent model (mkChange (start, finish) inserted))
  = firstn start (plain model) ++ inserted ++ skipn finish (plain model).
Proof.
  unfold plain, insertContent. simpl.
  rewrite !map_app, map_map, firstn_map, skipn_map. simpl.
  now rewrite map_id.
Qed.

(** C2, amended. Each rule that matches enqueues exactly one replace
    instruction.  The instruction replaces the whole probe text, that
    is the [data.text.length] characters before the cursor, with the
    probe text in which the match is substituted: the part before the
    literal followed by [to] for a literal rule, the probe text with the
    full match of the regular expression replaced by the expanded
    template for a regex rule.  The inserted text carries the
    attributes of the selection. *)
Theorem replace_spans_probe_text rules r model text :
  fires Attributes r text = true ->
  length (change_data (init Attributes rules) model text)
  = length (filter (fun r' => fires Attributes r' text) rules)
  /\ exists inserted,
      change_data (init Attributes [r]) model text
      = [mkChange (focus model - length text, focus model) inserted]
      /\ match from r with
         | FromString s =>
             exists prefix, text = prefix ++ s /\ inserted = prefix ++ to r
         | FromRegExp p =>
             exists m,
               RegExp.exec p text = Some m
               /\ inserted
                  = firstn (RegExp.index m) text
                      ++ RegExp.GetSubstitution (RegExp.matched m) text
                           (RegExp.index m) (RegExp.groups m) (to r)
                      ++ skipn (RegExp.index m + length (RegExp.matched m)) text
         end
      /\ content (onTextChanged (init Attributes [r]) model text)
         = firstn (focus model - length text) (content model)
             ++ map (fun ch => (ch, selectionAttributes model)) inserted
             ++ skipn (focus model) (content model).
Proof.
  intro F. split.
  { now rewrite change_data_filter, length_map. }
  exists (textReplacer r text). split; [|split].
  - rewrite change_data_cons, F, change_of_watch. reflexivity.
  - rewrite testCallback_watch in F. unfold textReplacer.
    destruct (from r) as [s|p].
    + apply endsWith_suffix in F. destruct F as [prefix ->].
      exists prefix. now rewrite slice_prefix.
    + apply test_exec in F. destruct F as [m E]. exists m.
      unfold RegExp.replace. now rewrite E.
  - rewrite (onTextChanged_single r model text F), change_of_watch.
    reflexivity.
Qed.

Lemma copyright_fires_not_after_space (prefix : jsstring) :
  endsWith (prefix ++ lit "(c) ") (lit "(c)") = false.
Proof.
  destruct (endsWith (prefix ++ lit "(c) ") (lit "(c)")) eqn:E;
    [|reflexivity].
  apply endsWith_suffix in E. destruct E as [p E]. exfalso.
  change (lit "(c) ") with ([40; 99; 41] ++ [32])%N in E.
  change (lit "(c)") with ([40; 99] ++ [41])%N in E.
  rewrite !app_assoc in E. apply app_inj_tail in E.
  destruct E as [_ E]. discriminate E.
Qed.

(** C6, amended. A rule with a literal pattern matches a probe text if
    and only if the probe text ends with the literal.  For the
    copyright rule, a probe text ending in [(c)] yields one replace of
    the whole probe text by the probe text whose last three characters
    are replaced by the copyright sign, so that in the document the
    three characters before the cursor give way to the sign; a probe
    text ending in [(c)] followed by a space yields no match. *)
Theorem copyright_replaces_suffix model (earlier prefix later : jsstring) :
  plain model = (earlier ++ prefix ++ lit "(c)") ++ later ->
  focus model = length (earlier ++ prefix ++ lit "(c)") ->
  let copyright := literal "(c)" [169%N] in
  own_property TRANSFORMATIONS "copyright" = Some copyright
  /\ (forall s t text,
         fires Attributes (mkDescription (FromString s) t) text = true
         <-> exists p, text = p ++ s)
  /\ change_data (init Attributes [copyright]) model (prefix ++ lit "(c)")
     = [mkChange (focus model - length (prefix ++ lit "(c)"), focus model)
                 (prefix ++ [169%N])]
  /\ plain (onTextChanged (init Attributes [copyright]) model
                          (prefix ++ lit "(c)"))
     = earlier ++ prefix ++ [169%N] ++ later
  /\ fires Attributes copyright (prefix ++ lit "(c) ") = false
  /\ change_data (init Attributes [copyright]) model (prefix ++ lit "(c) ")
     = [].
Proof.
  intros P Fo copyright.
  assert (F : fires Attributes copyright (prefix ++ lit "(c)") = true).
  { rewrite testCallback_watch. apply endsWith_suffix. now exists prefix. }
  assert (R : textReplacer copyright (prefix ++ lit "(c)") = prefix ++ [169%N]).
  { unfold textReplacer, copyright, literal. cbn [from to].
    now rewrite slice_prefix. }
  assert (N : fires Attributes copyright (prefix ++ lit "(c) ") = false).
  { rewrite testCallback_watch. apply copyright_fires_not_after_space. }
  split; [reflexivity|]. split; [|split; [|split; [|split]]].
  - intros s t text. rewrite testCallback_watch. apply endsWith_suffix.
  - rewrite change_data_cons, F, change_of_watch, R. reflexivity.
  - rewrite (onTextChanged_single copyright model _ F), change_of_watch, R.
    rewrite plain_insertContent, P, Fo.
    rewrite !length_app.
    replace (length earlier + (length prefix + length (lit "(c)"))
             - (length prefix + length (lit "(c)")))
      with (length earlier + 0) by lia.
    rewrite <- (app_assoc earlier), firstn_app_2. simpl firstn.
    rewrite app_nil_r.
    replace (length earlier + (length prefix + length (lit "(c)")))
      with (length (earlier ++ prefix ++ lit "(c)") + 0)
      by (rewrite !length_app; lia).
    rewrite (app_assoc earlier (prefix ++ lit "(c)") later).
    rewrite skipn_app, Nat.add_0_r, skipn_all, Nat.sub_diag. simpl.
    now rewrite <- app_assoc.
  - exact N.
  - rewrite change_data_cons, N. reflexivity.
Qed.

End Replacement.

(** ** The stated properties on concrete events *)

Lemma no_match_no_change_witness :
  let rules := [literal "(c)" [169%N]; quoted quotation_mark 8220 8221] in
  let text := lit "(c) " in
  let model := mkModel (map (fun ch => (ch, true)) text) 4 false in
  (forall r, In r rules -> fires bool r text = false)
  /\ change_data (init bool rules) model text = []
  /\ onTextChanged (init bool rules) model text = model.
Proof.
  intros rules text model.
  assert (H : forall r, In r rules -> fires bool r text = false).
  { intros r [<-|[<-|[]]]; reflexivity. }
  split; [exact H |].
  exact (no_match_no_change bool rules model text H).
Defined.

(** C1, as stated, fails: [quotes_primary] and [quotes_primary_pl] can be
    active together and both match a probe text that ends in a quoted
    span; each of them emits a replace instruction. *)
Lemma first_match_wins_counterexample :
  let primary := quoted quotation_mark 8220 8221 in
  let primary_pl := quoted quotation_mark 8222 8221 in
  let text := [quotation_mark] ++ lit "hi" ++ [quotation_mark] in
  let model := mkModel (map (fun ch => (ch, tt)) text) 4 tt in
  (exists out,
      getConfiguredTransformations
        (mkConfig [EStr "quotes_primary"; EStr "quotes_primary_pl"] None None)
      = Ok out
      /\ descriptions (fun _ => None) out = Some [primary; primary_pl])
  /\ ~ first_match_wins [primary; primary_pl] model text.
Proof.
  intros primary primary_pl text model. split.
  - eexists. split; reflexivity.
  - intro H.
    specialize (H [] primary [] primary_pl [] eq_refl
                  (fun r (I : In r []) => match I with end) eq_refl eq_refl).
    vm_compute in H. discriminate H.
Qed.

Lemma every_matching_rule_emits_witness :
  let primary := quoted quotation_mark 8220 8221 in
  let primary_pl := quoted quotation_mark 8222 8221 in
  let text := [quotation_mark] ++ lit "hi" ++ [quotation_mark] in
  let model := mkModel (map (fun ch => (ch, tt)) text) 4 tt in
  fires unit primary text = true
  /\ fires unit primary_pl text = true
  /\ change_data (init unit [primary; primary_pl]) model text
     = [ mkChange (0, 4) [8220; 104; 105; 8221]%N;
         mkChange (0, 4) [8222; 104; 105; 8221]%N ].
Proof.
  intros primary primary_pl text model.
  split; [reflexivity | split; [reflexivity |]].
  exact (proj1 (every_matching_rule_emits unit [primary; primary_pl]
                  [] primary [] primary_pl [] model text eq_refl
                  (fun r (I : In r []) => match I with end) eq_refl eq_refl)).
Defined.

(** C2, as stated, fails: for the copyright rule and the probe text
    [a(c)] the instruction spans the four characters of the probe text,
    not the three of the matched literal. *)
Lemma replaces_matched_text_only_counterexample :
  let text := lit "a(c)" in
  ~ replaces_matched_text_only (literal "(c)" [169%N])
      (mkModel (map (fun ch => (ch, tt)) text) 4 tt) text.
Proof.
  intros text H.
  destruct (H (lit "(c)") eq_refl) as [inserted E].
  vm_compute in E. discriminate E.
Qed.

Lemma replace_spans_probe_text_witness :
  let copyright := literal "(c)" [169%N] in
  let text := lit "a(c)" in
  let model := mkModel (map (fun ch => (ch, true)) text) 4 false in
  fires bool copyright text = true
  /\ exists inserted,
      change_data (init bool [copyright]) model text
      = [mkChange (focus model - length text, focus model) inserted]
      /\ (exists prefix,
             text = prefix ++ lit "(c)" /\ inserted = prefix ++ [169%N])
      /\ content (onTextChanged (init bool [copyright]) model text)
         = firstn (focus model - length text) (content model)
             ++ map (fun ch => (ch, selectionAttributes model)) inserted
             ++ skipn (focus model) (content model).
Proof.
  intros copyright text model.
  assert (F : fires bool copyright text = true) by reflexivity.
  split; [exact F |].
  exact (proj2 (replace_spans_probe_text bool [copyright] copyright model text F)).
Defined.

(** C6, as stated, fails: the probe text [a(c)] ends in [(c)], and the
    instruction replaces four characters by two. *)
Lemma copyright_replaces_three_counterexample :
  let text := lit "a(c)" in
  ~ copyright_replaces_three (mkModel (map (fun ch => (ch, tt)) text) 4 tt) text.
Proof.
  intros text H. specialize (H eq_refl). vm_compute in H. discriminate H.
Qed.

Lemma copyright_replaces_suffix_witness :
  let copyright := literal "(c)" [169%N] in
  let model := mkModel (map (fun ch => (ch, tt)) (lit "x a(c)y")) 6 tt in
  plain model = (lit "x " ++ lit "a" ++ lit "(c)") ++ lit "y"
  /\ focus model = length (lit "x " ++ lit "a" ++ lit "(c)")
  /\ change_data (init unit [copyright]) model (lit "a" ++ lit "(c)")
     = [mkChange (2, 6) (lit "a" ++ [169%N])]
  /\ plain (onTextChanged (init unit [copyright]) model (lit "a" ++ lit "(c)"))
     = lit "x " ++ lit "a" ++ [169%N] ++ lit "y".
Proof.
  intros copyright model.
  assert (P : plain model = (lit "x " ++ lit "a" ++ lit "(c)") ++ lit "y")
    by reflexivity.
  assert (Fo : focus model = length (lit "x " ++ lit "a" ++ lit "(c)"))
    by reflexivity.
  split; [exact P | split; [exact Fo |]].
  pose proof (copyright_replaces_suffix unit model (lit "x ") (lit "a")
                (lit "y") P Fo) as T.
  split; [exact (proj1 (proj2 (proj2 T))) | exact (proj1 (proj2 (proj2 (proj2 T))))].
Defined.

(** ** The pattern matcher never runs out of fuel *)

(** The states a matcher can hand to its continuation: further in the
    same input. *)
Lemma matcher_ext (p : RegExp.pattern) :
  forall (x : RegExp.State) (c1 c2 : RegExp.Continuation),
    (forall y,
        RegExp.endIndex x <= RegExp.endIndex y ->
        RegExp.endIndex y + length (RegExp.rest y)
        = RegExp.endIndex x + length (RegExp.rest x) ->
        c1 y = c2 y) ->
    RegExp.matcher p x c1 = RegExp.matcher p x c2.
Proof.
  assert (Class : forall accept x c1 c2,
             (forall y,
                 RegExp.endIndex x <= RegExp.endIndex y ->
                 RegExp.endIndex y + length (RegExp.rest y)
                 = RegExp.endIndex x + length (RegExp.rest x) ->
                 c1 y = c2 y) ->
             RegExp.CharacterSetMatcher accept x c1
             = RegExp.CharacterSetMatcher accept x c2).
  { intros accept x c1 c2 H. unfold RegExp.CharacterSetMatcher.
    destruct (RegExp.rest x) as [|ch tl] eqn:R; [reflexivity|].
    destruct (accept ch); [|reflexivity].
    apply H; cbn [RegExp.endIndex RegExp.rest length]; lia. }
  induction p as [ |ch| |inv ms|a IHa b IHb|a IHa b IHb|n a IHa|a IHa| | ];
    intros x c1 c2 H; cbn [RegExp.matcher].
  - apply H; lia.
  - now apply Class.
  - now apply Class.
  - now apply Class.
  - apply IHa. intros y L E. apply IHb. intros z L' E'. apply H; lia.
  - rewrite (IHa x c1 c2 H), (IHb x c1 c2 H). reflexivity.
  - apply IHa. intros y L E. apply H; cbn [RegExp.endIndex RegExp.rest]; lia.
  - apply IHa. intros y L E.
    assert (Hy : forall z,
               RegExp.endIndex y <= RegExp.endIndex z ->
               RegExp.endIndex z + length (RegExp.rest z)
               = RegExp.endIndex y + length (RegExp.rest y) ->
               c1 z = c2 z).
    { intros z L' E'. apply H; unfold RegExp.clear_captures in *;
        cbn [RegExp.endIndex RegExp.rest] in *; lia. }
    generalize (S (length (RegExp.rest y))) as fuel. intro fuel.
    revert y Hy L E. induction fuel as [|fuel IHf]; intros y Hy L E;
      [reflexivity|].
    cbn [RegExp.RepeatMatcher].
    rewrite (IHa (RegExp.clear_captures (RegExp.groups_in a) y)
                 (fun y0 => if (RegExp.endIndex y0 =? RegExp.endIndex y)%nat
                            then None
                            else RegExp.RepeatMatcher fuel (RegExp.matcher a)
                                   (RegExp.groups_in a) y0 c1)
                 (fun y0 => if (RegExp.endIndex y0 =? RegExp.endIndex y)%nat
                            then None
                            else RegExp.RepeatMatcher fuel (RegExp.matcher a)
                                   (RegExp.groups_in a) y0 c2)).
    + rewrite (Hy y) by lia. reflexivity.
    + intros z L' E'. unfold RegExp.clear_captures in L', E'.
      cbn [RegExp.endIndex RegExp.rest] in L', E'.
      destruct (RegExp.endIndex z =? RegExp.endIndex y)%nat; [reflexivity|].
      apply IHf; [|lia|lia]. intros w L'' E''. apply Hy; lia.
  - destruct (RegExp.endIndex x =? 0)%nat; [|reflexivity].
    apply H; [apply Nat.le_refl | reflexivity].
  - pose proof (H x (Nat.le_refl _) eq_refl) as Hx.
    destruct (RegExp.rest x); [exact Hx | reflexivity].
Qed.

(** Any fuel above the length of the remaining input gives the result of
    the loop: the fuel the matcher passes is never exhausted. *)
Lemma RepeatMatcher_fuel_irrelevant
      (a : RegExp.pattern) (inner : list nat) (c : RegExp.Continuation) :
  forall (fuel1 fuel2 : nat) (x : RegExp.State),
    length (RegExp.rest x) < fuel1 ->
    length (RegExp.rest x) < fuel2 ->
    RegExp.RepeatMatcher fuel1 (RegExp.matcher a) inner x c
    = RegExp.RepeatMatcher fuel2 (RegExp.matcher a) inner x c.
Proof.
  induction fuel1 as [|fuel1 IH]; intros fuel2 x H1 H2; [lia|].
  destruct fuel2 as [|fuel2]; [lia|]. cbn [RegExp.RepeatMatcher].
  rewrite (matcher_ext a (RegExp.clear_captures inner x)
             (fun y => if (RegExp.endIndex y =? RegExp.endIndex x)%nat
                       then None
                       else RegExp.RepeatMatcher fuel1 (RegExp.matcher a)
                              inner y c)
             (fun y => if (RegExp.endIndex y =? RegExp.endIndex x)%nat
                       then None
                       else RegExp.RepeatMatcher fuel2 (RegExp.matcher a)
                              inner y c)); [reflexivity|].
  intros y L E. unfold RegExp.clear_captures in L, E.
  cbn [RegExp.endIndex RegExp.rest] in L, E.
  destruct (RegExp.endIndex y =? RegExp.endIndex x)%nat eqn:Q; [reflexivity|].
  apply Nat.eqb_neq in Q. apply IH; lia.
Qed.

(** ** The quotes pattern *)

Section QuotesRegExp.

Import RegExp.

Variable q : N.

Lemma RepeatMatcher_S (fuel : nat) (m : Matcher) (inner : list nat)
      (x : State) (c : Continuation) :
  RepeatMatcher (S fuel) m inner x c
  = match m (clear_captures inner x)
            (fun y => if (endIndex y =? endIndex x)%nat then None
                      else RepeatMatcher fuel m inner y c) with
    | Some z => Some z
    | None => c x
    end.
Proof. reflexivity. Qed.

Lemma not_quote_nil (i : nat) (caps : list (option jsstring))
      (c : Continuation) :
  matcher (CharClass true [q]) (mkState i [] caps) c = None.
Proof. reflexivity. Qed.

Lemma not_quote_cons (i : nat) (ch : N) (tl : jsstring)
      (caps : list (option jsstring)) (c : Continuation) :
  matcher (CharClass true [q]) (mkState i (ch :: tl) caps) c
  = if (ch =? q)%N then None else c (mkState (S i) tl caps).
Proof.
  simpl. unfold CharacterSetMatcher. simpl. now destruct (ch =? q)%N.
Qed.

Lemma quote_nil (i : nat) (caps : list (option jsstring)) (c : Continuation) :
  matcher (Char q) (mkState i [] caps) c = None.
Proof. reflexivity. Qed.

Lemma quote_cons (i : nat) (ch : N) (tl : jsstring)
      (caps : list (option jsstring)) (c : Continuation) :
  matcher (Char q) (mkState i (ch :: tl) caps) c
  = if (q =? ch)%N then c (mkState (S i) tl caps) else None.
Proof. reflexivity. Qed.

(** The greedy loop of [[^q]*] in front of a continuation that wants a
    quote next: the loop takes every character up to the next quote, and
    no shorter run can satisfy the continuation. *)
Lemma RepeatMatcher_run (run tail : jsstring) :
  forall (fuel i : nat) (caps : list (option jsstring)) (K : Continuation),
    ~ In q run ->
    (tail = [] \/ exists t, tail = q :: t) ->
    (forall y, (forall t, rest y <> q :: t) -> K y = None) ->
    length (run ++ tail) < fuel ->
    RepeatMatcher fuel (matcher (CharClass true [q])) []
                  (mkState i (run ++ tail) caps) K
    = K (mkState (i + length run) tail caps).
Proof.
  induction run as [|a run IH]; intros fuel i caps K Hq Ht HK Hf;
    (destruct fuel as [|fuel]; [simpl in Hf; lia|]);
    rewrite RepeatMatcher_S;
    change (clear_captures [] (mkState i ?r caps)) with (mkState i r caps).
  - change ([] ++ tail) with tail. rewrite Nat.add_0_r.
    destruct Ht as [->|[t ->]]; [now rewrite not_quote_nil|].
    now rewrite not_quote_cons, N.eqb_refl.
  - assert (Ha : a <> q) by (intro E; apply Hq; now left).
    assert (Hr : ~ In q run) by (intro E; apply Hq; now right).
    change ((a :: run) ++ tail) with (a :: run ++ tail).
    rewrite not_quote_cons. apply N.eqb_neq in Ha. rewrite Ha.
    cbn [endIndex].
    replace (S i =? i)%nat with false
      by (symmetry; apply Nat.eqb_neq; lia).
    rewrite (IH fuel (S i) caps K Hr Ht HK) by (simpl in Hf; lia).
    cbn [length]. rewrite <- plus_n_Sm.
    change (S i + length run) with (S (i + length run)).
    destruct (K (mkState (S (i + length run)) tail caps)) eqn:E;
      [reflexivity|].
    apply HK. cbn [rest]. intros t Et. inversion Et. subst a.
    rewrite N.eqb_refl in Ha. discriminate Ha.
Qed.

(** The closing quote at the end of the input. *)
Lemma closing_quote_wanted (e : nat) (r : jsstring)
      (caps : list (option jsstring)) :
  (forall t, r <> q :: t) ->
  matcher (Seq (Char q) AssertEnd) (mkState e r caps) Some = None.
Proof.
  intro H. destruct r as [|ch t]; [reflexivity|].
  change (matcher (Seq (Char q) AssertEnd) (mkState e (ch :: t) caps) Some)
    with (matcher (Char q) (mkState e (ch :: t) caps)
                  (fun y => matcher AssertEnd y Some)).
  rewrite quote_cons. destruct (q =? ch)%N eqn:E; [|reflexivity].
  apply N.eqb_eq in E. subst ch. now destruct (H t).
Qed.

Lemma closing_quote_last (e : nat) (caps : list (option jsstring)) :
  matcher (Seq (Char q) AssertEnd) (mkState e [q] caps) Some
  = Some (mkState (S e) [] caps).
Proof.
  change (matcher (Seq (Char q) AssertEnd) (mkState e [q] caps) Some)
    with (matcher (Char q) (mkState e [q] caps)
                  (fun y => matcher AssertEnd y Some)).
  now rewrite quote_cons, N.eqb_refl.
Qed.

Lemma closing_quote_early (e : nat) (t : jsstring)
      (caps : list (option jsstring)) :
  t <> [] ->
  matcher (Seq (Char q) AssertEnd) (mkState e (q :: t) caps) Some = None.
Proof.
  intro H.
  change (matcher (Seq (Char q) AssertEnd) (mkState e (q :: t) caps) Some)
    with (matcher (Char q) (mkState e (q :: t) caps)
                  (fun y => matcher AssertEnd y Some)).
  rewrite quote_cons, N.eqb_refl. destruct t; [contradiction | reflexivity].
Qed.

Lemma after_span_wants_quote (start : nat) (input : jsstring) (y : State) :
  (forall t, rest y <> q :: t) -> after_span q start input y = None.
Proof. intro H. unfold after_span. now apply closing_quote_wanted. Qed.

Lemma quoted_span_cons (i : nat) (ch : N) (tl : jsstring)
      (caps : list (option jsstring)) :
  matcher (quoted_span q) (mkState i (ch :: tl) caps) Some
  = if (q =? ch)%N
    then matcher (CharClass true [q]) (mkState (S i) tl caps)
           (fun y =>
              RepeatMatcher (S (length (rest y)))
                (matcher (CharClass true [q])) [] y (after_span q (S i) tl))
    else None.
Proof. reflexivity. Qed.

Lemma quoted_span_nil (i : nat) (caps : list (option jsstring)) :
  matcher (quoted_span q) (mkState i [] caps) Some = None.
Proof. reflexivity. Qed.

(** From an opening quote, a span without quotes and a closing quote
    that ends the input, the span is captured. *)
Lemma quoted_span_match (span : jsstring) (i : nat)
      (c1 c2 : option jsstring) :
  span <> [] ->
  ~ In q span ->
  matcher (quoted_span q) (mkState i (q :: span ++ [q]) [c1; c2]) Some
  = Some (mkState (i + length span + 2) [] [c1; Some span]).
Proof.
  intros Hn Hq. destruct span as [|c0 span]; [contradiction|].
  assert (H0 : c0 <> q) by (intro E; apply Hq; now left).
  assert (Hs : ~ In q span) by (intro E; apply Hq; now right).
  rewrite quoted_span_cons, N.eqb_refl.
  change ((c0 :: span) ++ [q]) with (c0 :: span ++ [q]).
  rewrite not_quote_cons. apply N.eqb_neq in H0. rewrite H0.
  cbn [rest].
  rewrite RepeatMatcher_run;
    [ | assumption | right; now exists []
      | apply after_span_wants_quote | lia ].
  unfold after_span. cbn [endIndex rest captures].
  replace (S (S i) + length span - S i) with (S (length span)) by lia.
  change (c0 :: span ++ [q]) with ((c0 :: span) ++ [q]).
  rewrite firstn_app.
  replace (S (length span) - length (c0 :: span)) with 0
    by (cbn [length]; lia).
  rewrite firstn_all2 by (cbn [length]; lia).
  cbn [firstn]. rewrite app_nil_r.
  rewrite closing_quote_last. cbn [set_capture length].
  f_equal. f_equal. lia.
Qed.

Lemma first_quote_split (x t0 : jsstring) :
  t0 <> [] ->
  exists run t, x ++ q :: t0 = run ++ q :: t /\ ~ In q run /\ t <> [].
Proof.
  intro H. induction x as [|a x [run [t [E [Hr Ht]]]]].
  - exists [], t0. repeat split; auto.
  - destruct (N.eq_dec a q) as [->|Ha].
    + exists [], (x ++ q :: t0). repeat split; auto.
      now destruct x.
    + exists (a :: run), t. cbn [app]. rewrite E. repeat split; auto.
      intros [I|I]; [now apply Ha | now apply Hr].
Qed.

(** An opening quote that is not the last but one of the input does not
    start a quoted span. *)
Lemma quoted_span_fail (x t0 : jsstring) (i : nat)
      (caps : list (option jsstring)) :
  x <> [] ->
  t0 <> [] ->
  matcher (quoted_span q) (mkState i (x ++ q :: t0) caps) Some = None.
Proof.
  intros Hx Ht. destruct x as [|c x]; [contradiction|].
  change ((c :: x) ++ q :: t0) with (c :: x ++ q :: t0).
  rewrite quoted_span_cons. destruct (q =? c)%N; [|reflexivity].
  destruct x as [|c2 x].
  - change ([] ++ q :: t0) with (q :: t0).
    now rewrite not_quote_cons, N.eqb_refl.
  - set (input := (c2 :: x) ++ q :: t0).
    change input with (c2 :: x ++ q :: t0).
    rewrite not_quote_cons. destruct (c2 =? q)%N; [reflexivity|].
    cbn [rest].
    destruct (first_quote_split x t0 Ht) as [run [t [E [Hr Hn]]]].
    rewrite E.
    rewrite RepeatMatcher_run;
      [ | assumption | right; now exists t
        | apply after_span_wants_quote | lia ].
    unfold after_span. cbn [endIndex rest captures].
    now apply closing_quote_early.
Qed.

(** One attempt of the whole pattern at a start position: the boundary
    is the start of the input, or else one white space character. *)
Lemma attempt_unfold (i : nat) (s : jsstring) :
  matcher (buildQuotesRegExp q) (mkState i s [None; None]) Some
  = match (if (i =? 0)%nat
           then matcher (quoted_span q)
                        (mkState i s [Some (firstn (i - i) s); None]) Some
           else None) with
    | Some z => Some z
    | None =>
        match s with
        | [] => None
        | w :: s' =>
            if isWhiteSpace w
            then matcher (quoted_span q)
                   (mkState (S i) s' [Some (firstn (S i - i) s); None]) Some
            else None
        end
    end.
Proof.
  destruct s as [|w s']; destruct (i =? 0)%nat eqn:E; cbn; rewrite ?E;
    try reflexivity.
Qed.

Lemma search_unfold (p : pattern) (n i : nat) (input : jsstring) :
  search p n i input
  = match matcher p (mkState i input (repeat None n)) Some with
    | Some y => Some (mkMatch i (firstn (endIndex y - i) input) (captures y))
    | None =>
        match input with
        | [] => None
        | _ :: tl => search p n (S i) tl
        end
    end.
Proof. destruct input; reflexivity. Qed.

Lemma attempt_fail_inside (i : nat) (c : N) (x t0 : jsstring) :
  x <> [] ->
  t0 <> [] ->
  matcher (buildQuotesRegExp q) (mkState i (c :: x ++ q :: t0) [None; None])
          Some = None.
Proof.
  intros Hx Ht. rewrite attempt_unfold.
  change (c :: x ++ q :: t0) with ((c :: x) ++ q :: t0) at 1.
  rewrite quoted_span_fail by (assumption || discriminate).
  rewrite quoted_span_fail by assumption.
  destruct (i =? 0)%nat, (isWhiteSpace c); reflexivity.
Qed.

(** A quoted span that opens the input. *)
Lemma search_at_start (span : jsstring) :
  span <> [] ->
  ~ In q span ->
  search (buildQuotesRegExp q) 2 0 (q :: span ++ [q])
  = Some (mkMatch 0 (q :: span ++ [q]) [Some []; Some span]).
Proof.
  intros Hn Hq. rewrite search_unfold. cbn [repeat].
  rewrite attempt_unfold. cbn [Nat.eqb Nat.sub firstn].
  rewrite quoted_span_match by assumption.
  cbn [endIndex captures]. rewrite Nat.sub_0_r.
  f_equal. f_equal. apply firstn_all2.
  cbn [length]. rewrite length_app. cbn [length]. lia.
Qed.

(** A quoted span after a white space character, anywhere in the
    input: no earlier start position matches. *)
Lemma search_after_space (pre : jsstring) (w : N) (span : jsstring) :
  forall i,
    isWhiteSpace w = true ->
    span <> [] ->
    ~ In q span ->
    search (buildQuotesRegExp q) 2 i (pre ++ w :: q :: span ++ [q])
    = Some (mkMatch (i + length pre) (w :: q :: span ++ [q])
                    [Some [w]; Some span]).
Proof.
  induction pre as [|c pre IH]; intros i Hw Hn Hq;
    rewrite search_unfold; cbn [repeat].
  - change ([] ++ w :: q :: span ++ [q]) with (w :: q :: span ++ [q]).
    rewrite attempt_unfold, Hw.
    change (w :: q :: span ++ [q]) with ([w] ++ q :: span ++ [q]) at 1.
    rewrite quoted_span_fail
      by (discriminate || (intro E; now apply app_eq_nil in E)).
    replace (S i - i) with 1 by lia. cbn [firstn].
    rewrite quoted_span_match by assumption.
    assert (L : firstn (S i + length span + 2 - i) (w :: q :: span ++ [q])
                = w :: q :: span ++ [q]).
    { apply firstn_all2. cbn [length]. rewrite length_app. cbn [length]. lia. }
    cbn [length]. rewrite Nat.add_0_r.
    destruct (i =? 0)%nat; cbn [endIndex captures]; now rewrite L.
  - replace ((c :: pre) ++ w :: q :: span ++ [q])
      with (c :: (pre ++ [w]) ++ q :: (span ++ [q]))
      by (cbn [app]; now rewrite <- app_assoc).
    rewrite attempt_fail_inside;
      [ | intro E; now apply app_eq_nil in E
        | intro E; now apply app_eq_nil in E ].
    rewrite <- app_assoc. cbn [app].
    rewrite (IH (S i) Hw Hn Hq). cbn [length].
    now rewrite <- plus_n_Sm.
Qed.

End QuotesRegExp.

Lemma exec_quotes (q : N) (pre b span : jsstring) :
  span <> [] ->
  ~ In q span ->
  (b = [] /\ pre = [] \/ exists w, RegExp.isWhiteSpace w = true /\ b = [w]) ->
  RegExp.exec (buildQuotesRegExp q) (pre ++ b ++ q :: span ++ [q])
  = Some (RegExp.mkMatch (length pre) (b ++ q :: span ++ [q])
                         [Some b; Some span]).
Proof.
  intros Hn Hq [[-> ->]|[w [Hw ->]]]; unfold RegExp.exec;
    change (length (RegExp.groups_in (buildQuotesRegExp q))) with 2.
  - apply search_at_start; assumption.
  - apply (search_after_space q pre w span 0); assumption.
Qed.

Lemma replace_quotes (q open close : N) (pre b span : jsstring) :
  RegExp.isDigit open = false -> open <> 36%N ->
  RegExp.isDigit close = false -> close <> 36%N ->
  RegExp.exec (buildQuotesRegExp q) (pre ++ b ++ q :: span ++ [q])
  = Some (RegExp.mkMatch (length pre) (b ++ q :: span ++ [q])
                         [Some b; Some span]) ->
  RegExp.replace (pre ++ b ++ q :: span ++ [q]) (buildQuotesRegExp q)
                 (to (quoted q open close))
  = pre ++ b ++ open :: span ++ [close].
Proof.
  intros Do Ho Dc Hc E. unfold RegExp.replace. rewrite E.
  cbn [RegExp.index RegExp.matched RegExp.groups].
  rewrite firstn_app, Nat.sub_diag, firstn_all. cbn [firstn].
  rewrite app_nil_r.
  rewrite skipn_all2 by (rewrite !length_app; lia).
  rewrite app_nil_r. f_equal.
  apply N.eqb_neq in Ho, Hc.
  unfold quoted, to. cbn. rewrite Do, Dc, Ho, Hc. cbn.
  reflexivity.
Qed.

(** C3. For the US primary-quotes rule and a probe text that ends in a
    span between straight double quotes, the span holding no such quote
    and being preceded by the start of the text or by a white space
    character: the match is the boundary followed by the quoted span, the
    two captures are the boundary and the span, and the text inserted has
    the boundary followed by the span between U+201C and U+201D in place
    of the match. *)
Theorem quotes_primary_pairs_quotes
        (Attributes : Type) (model : Model Attributes) (pre b span : jsstring) :
  span <> [] ->
  ~ In quotation_mark span ->
  (b = [] /\ pre = [] \/ exists w, RegExp.isWhiteSpace w = true /\ b = [w]) ->
  let text := pre ++ b ++ quotation_mark :: span ++ [quotation_mark] in
  let quotes_primary := quoted quotation_mark 8220 8221 in
  own_property TRANSFORMATIONS "quotes_primary" = Some quotes_primary
  /\ RegExp.exec (buildQuotesRegExp quotation_mark) text
     = Some (RegExp.mkMatch (length pre)
               (b ++ quotation_mark :: span ++ [quotation_mark])
               [Some b; Some span])
  /\ fires Attributes quotes_primary text = true
  /\ textReplacer quotes_primary text = pre ++ b ++ 8220%N :: span ++ [8221%N]
  /\ change_data (init Attributes [quotes_primary]) model text
     = [mkChange (focus model - length text, focus model)
                 (pre ++ b ++ 8220%N :: span ++ [8221%N])].
Proof.
  intros Hn Hq Hb text quotes_primary.
  pose proof (exec_quotes quotation_mark pre b span Hn Hq Hb) as E.
  assert (F : fires Attributes quotes_primary text = true).
  { rewrite testCallback_watch. cbn [from quotes_primary quoted].
    unfold RegExp.test. fold text in E. now rewrite E. }
  assert (R : textReplacer quotes_primary text
              = pre ++ b ++ 8220%N :: span ++ [8221%N]).
  { apply (replace_quotes quotation_mark 8220 8221 pre b span);
      [reflexivity | discriminate | reflexivity | discriminate | exact E]. }
  split; [reflexivity | split; [exact E | split; [exact F | split; [exact R |]]]].
  rewrite change_data_cons, F, change_of_watch, R. reflexivity.
Qed.

Lemma quotes_primary_pairs_quotes_witness :
  let text := lit "He said " ++ [quotation_mark] ++ lit "hello" ++ [quotation_mark] in
  let model := mkModel (map (fun ch => (ch, tt)) text) 15 tt in
  ~ In quotation_mark (lit "hello")
  /\ RegExp.exec (buildQuotesRegExp quotation_mark) text
     = Some (RegExp.mkMatch 7
               ([32%N] ++ quotation_mark :: lit "hello" ++ [quotation_mark])
               [Some [32%N]; Some (lit "hello")])
  /\ change_data (init unit [quoted quotation_mark 8220 8221]) model text
     = [mkChange (0, 15)
                 (lit "He said " ++ [8220%N] ++ lit "hello" ++ [8221%N])].
Proof.
  intros text model.
  assert (Hq : ~ In quotation_mark (lit "hello")).
  { intro H. repeat (destruct H as [H|H]; [discriminate H|]). exact H. }
  split; [exact Hq |].
  pose proof (quotes_primary_pairs_quotes unit model (lit "He said") [32%N]
                (lit "hello") ltac:(discriminate) Hq
                (or_intror (ex_intro _ 32%N (conj eq_refl eq_refl)))) as T.
  split; [exact (proj1 (proj2 T)) | exact (proj2 (proj2 (proj2 (proj2 T))))].
Defined.


(** * Further properties of the plugin *)

(** ** Errors of resolution *)

Lemma group_names_not_inherited (key : string) (members : list string) :
  own_property TRANSFORMATION_GROUPS key = Some members ->
  inherited key = false.
Proof.
  intro G. apply own_property_In in G.
  assert (All : forallb (fun gm => negb (inherited (fst gm)))
                        TRANSFORMATION_GROUPS = true) by reflexivity.
  rewrite forallb_forall in All. specialize (All _ G).
  cbv beta in All. unfold fst in All. now apply negb_true_iff in All.
Qed.

Lemma members_not_inherited (group member : string) (members : list string) :
  own_property TRANSFORMATION_GROUPS group = Some members ->
  In member members ->
  inherited member = false.
Proof.
  intros G M. apply own_property_In in G.
  assert (All : forallb (fun gm => forallb (fun m => negb (inherited m)) (snd gm))
                        TRANSFORMATION_GROUPS = true) by reflexivity.
  rewrite forallb_forall in All. specialize (All _ G).
  cbv beta in All. unfold snd in All.
  rewrite forallb_forall in All. specialize (All _ M).
  now apply negb_true_iff in All.
Qed.

Lemma Get_Inherited {A} (own : list (string * A)) (key : string) :
  Get own key = Inherited <->
  own_property own key = None /\ inherited key = true.
Proof.
  unfold Get. destruct (own_property own key).
  - split; [discriminate | intros [H _]; discriminate].
  - destruct (inherited key); split; try discriminate; try tauto.
    intros [_ H]. discriminate.
Qed.

Lemma expand_loop_Throw (definitions s : list entry) (err : exn) :
  expand_loop definitions s = Throw err ->
  exists e,
    In e definitions
    /\ inherited (ToPropertyKey e) = true
    /\ own_property TRANSFORMATION_GROUPS (ToPropertyKey e) = None
    /\ err = TypeError_not_iterable (ToPropertyKey e).
Proof.
  revert s. induction definitions as [|d more IH]; intros s H; simpl in H.
  - discriminate.
  - destruct (Get TRANSFORMATION_GROUPS (ToPropertyKey d)) as [ms| |] eqn:G.
    + destruct (IH _ H) as [e [I R]]. exists e. split; [now right | exact R].
    + apply Get_Inherited in G. destruct G as [G1 G2].
      exists d. inversion H. repeat split; auto. now left.
    + destruct (IH _ H) as [e [I R]]. exists e. split; [now right | exact R].
Qed.

Lemma getConfiguredTransformations_Throw
      (config : TextTransformationConfig) (err : exn) :
  getConfiguredTransformations config = Throw err ->
  exists e,
    In e (include config ++ or_empty (extra config))
    /\ ~ In e (or_empty (remove config))
    /\ inherited (ToPropertyKey e) = true
    /\ own_property TRANSFORMATION_GROUPS (ToPropertyKey e) = None
    /\ err = TypeError_not_iterable (ToPropertyKey e).
Proof.
  intro H.
  unfold getConfiguredTransformations, expandGroupsAndRemoveDuplicates in H.
  destruct (expand_loop _ []) as [s'|err'] eqn:E; [discriminate|].
  cbn [bind] in H. inversion H. subst err'.
  destruct (expand_loop_Throw _ _ _ E) as [e [I [Hi [Hg He]]]].
  apply filter_In in I. destruct I as [I N]. apply isNotRemoved_true in N.
  exists e. auto.
Qed.

Lemma expand_loop_Ok_no_inherited (definitions s s' : list entry) (e : entry) :
  expand_loop definitions s = Ok s' ->
  In e definitions ->
  inherited (ToPropertyKey e) = false.
Proof.
  revert s. induction definitions as [|d more IH]; intros s E F; [destruct F|].
  simpl in E.
  destruct (Get TRANSFORMATION_GROUPS (ToPropertyKey d)) as [ms| |] eqn:G;
    [|discriminate|].
  - destruct F as [->|F]; [|eapply IH; eauto].
    apply Get_Own in G. now apply group_names_not_inherited in G.
  - destruct F as [->|F]; [|eapply IH; eauto].
    apply Get_Undefined in G. tauto.
Qed.

Lemma getConfiguredTransformations_Ok_no_inherited
      (config : TextTransformationConfig) (out : list value) :
  getConfiguredTransformations config = Ok out -> no_inherited_key config.
Proof.
  intros H e I R.
  unfold getConfiguredTransformations, expandGroupsAndRemoveDuplicates in H.
  destruct (expand_loop _ []) as [s'|err'] eqn:E; [|discriminate].
  apply (expand_loop_Ok_no_inherited _ _ _ e E).
  apply filter_In. split; [assumption | now apply isNotRemoved_true].
Qed.

(** X1. Resolution raises an error exactly when an entry of [include] or
    [extra] that is not listed in [remove] names a property inherited
    from [Object.prototype] (such as [constructor] or [toString]): the
    error is the [TypeError] of iterating that inherited value. *)
Theorem resolution_fails_on_inherited_names (config : TextTransformationConfig) :
  ((exists out, getConfiguredTransformations config = Ok out)
   <-> no_inherited_key config)
  /\ forall err,
      getConfiguredTransformations config = Throw err ->
      exists e,
        In e (include config ++ or_empty (extra config))
        /\ ~ In e (or_empty (remove config))
        /\ inherited (ToPropertyKey e) = true
        /\ err = TypeError_not_iterable (ToPropertyKey e).
Proof.
  split; [split|].
  - intros [out H]. exact (getConfiguredTransformations_Ok_no_inherited _ _ H).
  - apply getConfiguredTransformations_total.
  - intros err H.
    destruct (getConfiguredTransformations_Throw _ _ H)
      as [e [I [R [Hi [_ He]]]]].
    exists e. auto.
Qed.

(** ** The resolved list as a set *)

Lemma materialize_string (e : entry) (s : string) :
  materialize e = VString s -> e = EStr s.
Proof.
  destruct e as [t|r]; rewrite ?object_key_not_named; [|discriminate].
  destruct (materialize_EStr t) as [H|[H|H]]; rewrite H; congruence.
Qed.

Lemma expansion_In (definitions : list entry) (e : entry) :
  In e (expansion definitions) <->
  (In e definitions
   /\ own_property TRANSFORMATION_GROUPS (ToPropertyKey e) = None)
  \/ exists g members name,
       In g definitions
       /\ own_property TRANSFORMATION_GROUPS (ToPropertyKey g) = Some members
       /\ In name members /\ e = EStr name.
Proof.
  unfold expansion. rewrite in_flat_map. split.
  - intros [d [I X]]. unfold expansion_of in X.
    destruct (own_property TRANSFORMATION_GROUPS (ToPropertyKey d))
      as [ms|] eqn:G.
    + apply in_map_iff in X. destruct X as [m [<- M]].
      right. exists d, ms, m. auto.
    + destruct X as [<-|[]]. left. auto.
  - intros [[I G]|[g [ms [m [I [G [M ->]]]]]]].
    + exists e. split; [assumption|]. unfold expansion_of. rewrite G. now left.
    + exists g. split; [assumption|]. unfold expansion_of. rewrite G.
      apply in_map_iff. now exists m.
Qed.

Lemma resolved_In
        (config : TextTransformationConfig) (out : list value) (v : value) :
  getConfiguredTransformations config = Ok out ->
  let raw := include config ++ or_empty (extra config) in
  let removed := or_empty (remove config) in
  In v out <->
  exists e,
    v = materialize e
    /\ ~ In e removed
    /\ ((In e raw
         /\ own_property TRANSFORMATION_GROUPS (ToPropertyKey e) = None)
        \/ exists g members name,
             In g raw /\ ~ In g removed
             /\ own_property TRANSFORMATION_GROUPS (ToPropertyKey g)
                = Some members
             /\ In name members /\ e = EStr name).
Proof.
  intros H raw removed. apply getConfiguredTransformations_steps in H.
  fold raw removed in H. subst out. rewrite in_map_iff. split.
  - intros [e [<- I]]. apply filter_In in I. destruct I as [I N].
    apply isNotRemoved_true in N. rewrite first_occurrences_In in I.
    apply expansion_In in I. exists e. split; [reflexivity|].
    split; [assumption|].
    destruct I as [[I G]|[g [ms [m [I [G [M ->]]]]]]].
    + apply filter_In in I. left. tauto.
    + apply filter_In in I. destruct I as [I Ng].
      apply isNotRemoved_true in Ng. right. exists g, ms, m. auto.
  - intros [e [-> [N X]]]. exists e. split; [reflexivity|].
    apply filter_In. split; [|now apply isNotRemoved_true].
    rewrite first_occurrences_In. apply expansion_In.
    destruct X as [[I G]|[g [ms [m [I [Ng [G [M ->]]]]]]]].
    + left. split; [|assumption]. apply filter_In.
      split; [assumption | now apply isNotRemoved_true].
    + right. exists g, ms, m. repeat split; auto. apply filter_In.
      split; [assumption | now apply isNotRemoved_true].
Qed.

(** X2. The resolved list holds exactly the entries of [include] and
    [extra] that are not group names, and the members of the groups
    listed there, the removed entries and the members of removed groups
    left out, each one materialised. *)
Theorem resolved_list_membership
        (config : TextTransformationConfig) (out : list value) (v : value) :
  getConfiguredTransformations config = Ok out ->
  let raw := include config ++ or_empty (extra config) in
  let removed := or_empty (remove config) in
  In v out <->
  exists e,
    v = materialize e
    /\ ~ In e removed
    /\ ((In e raw
         /\ own_property TRANSFORMATION_GROUPS (ToPropertyKey e) = None)
        \/ exists g members name,
             In g raw /\ ~ In g removed
             /\ own_property TRANSFORMATION_GROUPS (ToPropertyKey g)
                = Some members
             /\ In name members /\ e = EStr name).
Proof. exact (resolved_In config out v). Qed.

Lemma resolved_list_membership_witness :
  let config :=
    mkConfig [EStr "typography"; EStr "my_rule"] (Some [EObj 1])
             (Some [EStr "en_dash"]) in
  let out :=
    [VNamed "horizontal_ellipsis"; VNamed "em_dash"; VString "my_rule";
     VObject 1] in
  getConfiguredTransformations config = Ok out
  /\ (In (VNamed "em_dash") out <->
      exists e,
        VNamed "em_dash" = materialize e
        /\ ~ In e [EStr "en_dash"]
        /\ ((In e [EStr "typography"; EStr "my_rule"; EObj 1]
             /\ own_property TRANSFORMATION_GROUPS (ToPropertyKey e) = None)
            \/ exists g members name,
                 In g [EStr "typography"; EStr "my_rule"; EObj 1]
                 /\ ~ In g [EStr "en_dash"]
                 /\ own_property TRANSFORMATION_GROUPS (ToPropertyKey g)
                    = Some members
                 /\ In name members /\ e = EStr name)).
Proof.
  intros config out.
  assert (H : getConfiguredTransformations config = Ok out) by reflexivity.
  split; [exact H |].
  exact (resolved_list_membership config out (VNamed "em_dash") H).
Defined.

(** X3. A group never shows in the resolved list: whatever the
    configuration, no element of the list is the name of a group. *)
Theorem groups_absent_from_resolved_list
        (config : TextTransformationConfig) (out : list value)
        (group : string) (members : list string) :
  getConfiguredTransformations config = Ok out ->
  own_property TRANSFORMATION_GROUPS group = Some members ->
  ~ In (VString group) out /\ ~ In (VNamed group) out.
Proof.
  intros H G. apply getConfiguredTransformations_steps in H. subst out.
  assert (A : forall v, (forall e, materialize e = v -> e = EStr group) ->
                        ~ In v (map materialize
                                  (filter (isNotRemoved (or_empty (remove config)))
                                     (first_occurrences
                                        (expansion
                                           (filter (isNotRemoved
                                                      (or_empty (remove config)))
                                              (include config
                                                 ++ or_empty (extra config)))))))).
  { intros v Hv I. apply in_map_iff in I. destruct I as [e [E I]].
    apply Hv in E. subst e. apply filter_In in I. destruct I as [I _].
    rewrite first_occurrences_In in I.
    exact (expansion_without_group_names group members _ G I). }
  split; apply A; intro e.
  - apply materialize_string.
  - apply materialize_named.
Qed.

Lemma groups_absent_from_resolved_list_witness :
  let config := mkConfig [EStr "quotes"; EStr "symbols"] None None in
  exists out,
    getConfiguredTransformations config = Ok out
    /\ ~ In (VString "quotes") out /\ ~ In (VNamed "quotes") out.
Proof.
  intro config. eexists. split; [reflexivity|].
  exact (groups_absent_from_resolved_list config _ "quotes"
           [ "quotes_primary"; "quotes_secondary" ] eq_refl eq_refl).
Defined.

(** ** Resolving a resolved list *)

Lemma filter_all {A} (p : A -> bool) (l : list A) :
  (forall x, In x l -> p x = true) -> filter p l = l.
Proof.
  induction l as [|a l IH]; intro H; simpl; [reflexivity|].
  rewrite (H a (or_introl eq_refl)). f_equal. apply IH.
  intros x Hx. apply H. now right.
Qed.

Lemma first_occurrences_NoDup_id (l : list entry) :
  NoDup l -> first_occurrences l = l.
Proof.
  induction 1 as [|x l Hx Hl IH]; simpl; [reflexivity|].
  rewrite IH. f_equal. apply filter_all. intros y Hy.
  apply negb_true_iff, entry_eqb_neq. intros ->. contradiction.
Qed.

Lemma expansion_id (l : list entry) :
  (forall e, In e l ->
             own_property TRANSFORMATION_GROUPS (ToPropertyKey e) = None) ->
  expansion l = l.
Proof.
  induction l as [|a l IH]; intro H; [reflexivity|].
  unfold expansion. cbn [flat_map]. unfold expansion_of at 1.
  rewrite (H a (or_introl eq_refl)). cbn [app]. f_equal. apply IH.
  intros e He. apply H. now right.
Qed.

Lemma expand_loop_Ok (definitions s : list entry) :
  (forall e, In e definitions -> inherited (ToPropertyKey e) = false) ->
  expand_loop definitions s = Ok (fold_left Set_add (expansion definitions) s).
Proof.
  intro H. destruct (expand_loop_total definitions s H) as [s' E].
  rewrite E. f_equal. now apply expand_loop_fold.
Qed.

Lemma members_not_groups (group member : string) (members : list string) :
  own_property TRANSFORMATION_GROUPS group = Some members ->
  In member members ->
  own_property TRANSFORMATION_GROUPS member = None.
Proof.
  intros G M. destruct (group_members_named _ _ _ G M) as [_ X].
  unfold expansion_of in X. cbn [ToPropertyKey] in X.
  destruct (own_property TRANSFORMATION_GROUPS member) as [ms|] eqn:Q;
    [|reflexivity].
  exfalso. apply (expansion_without_group_names member ms [EStr member] Q).
  unfold expansion. cbn [flat_map]. unfold expansion_of.
  cbn [ToPropertyKey]. rewrite Q, app_nil_r, X. now left.
Qed.

(** X4. Resolution is idempotent: the entries behind a resolved list,
    given back as [include] with the same [remove], resolve to the same
    list. *)
Theorem resolution_idempotent
        (config : TextTransformationConfig) (out : list value) :
  getConfiguredTransformations config = Ok out ->
  exists entries,
    out = map materialize entries
    /\ getConfiguredTransformations (mkConfig entries None (remove config))
       = Ok out.
Proof.
  intro H. pose proof (getConfiguredTransformations_Ok_no_inherited _ _ H) as P.
  apply getConfiguredTransformations_steps in H.
  set (removed := or_empty (remove config)) in *.
  set (configured := filter (isNotRemoved removed)
                            (include config ++ or_empty (extra config))) in *.
  set (entries := filter (isNotRemoved removed)
                         (first_occurrences (expansion configured))) in *.
  exists entries. split; [assumption|].
  assert (N : forall e, In e entries -> isNotRemoved removed e = true).
  { intros e I. apply filter_In in I. tauto. }
  assert (X : forall e, In e entries ->
                own_property TRANSFORMATION_GROUPS (ToPropertyKey e) = None
                /\ inherited (ToPropertyKey e) = false).
  { intros e I. apply filter_In in I. destruct I as [I _].
    rewrite first_occurrences_In in I. apply expansion_In in I.
    destruct I as [[I G]|[g [ms [m [I [G [M ->]]]]]]].
    - split; [assumption|]. apply filter_In in I. destruct I as [I R].
      apply isNotRemoved_true in R. now apply P.
    - cbn [ToPropertyKey]. split.
      + exact (members_not_groups _ _ _ G M).
      + exact (members_not_inherited _ _ _ G M). }
  assert (D : NoDup entries)
    by apply NoDup_filter, first_occurrences_NoDup.
  unfold getConfiguredTransformations, expandGroupsAndRemoveDuplicates.
  cbn [include extra remove or_empty]. fold removed.
  rewrite app_nil_r, (filter_all _ entries N).
  rewrite expand_loop_Ok by (intros e I; now apply X).
  rewrite first_occurrences_of_fold.
  rewrite expansion_id by (intros e I; now apply X).
  rewrite (first_occurrences_NoDup_id entries D).
  cbn [bind]. rewrite (filter_all _ entries N). now rewrite H.
Qed.

Lemma resolution_idempotent_witness :
  let config :=
    mkConfig [EStr "symbols"; EStr "copyright"; EObj 4] (Some [EStr "quotes"])
             (Some [EStr "trademark"]) in
  exists out,
    getConfiguredTransformations config = Ok out
    /\ exists entries,
        out = map materialize entries
        /\ getConfiguredTransformations
             (mkConfig entries None (remove config)) = Ok out.
Proof.
  intro config. eexists. split; [reflexivity|].
  exact (resolution_idempotent config _ eq_refl).
Defined.

(** ** Configurations of known names *)

Lemma transformation_names_not_inherited
      (name : string) (d : TextTransformationDescription) :
  own_property TRANSFORMATIONS name = Some d -> inherited name = false.
Proof.
  intro T. apply own_property_In in T.
  assert (All : forallb (fun nd => negb (inherited (fst nd)))
                        TRANSFORMATIONS = true) by reflexivity.
  rewrite forallb_forall in All. specialize (All _ T).
  cbv beta in All. unfold fst in All. now apply negb_true_iff in All.
Qed.

Lemma descriptions_Some (heap : Heap) (vs : list value) :
  (forall v, In v vs -> description heap v <> None) ->
  exists rules,
    descriptions heap vs = Some rules /\ length rules = length vs.
Proof.
  induction vs as [|v vs IH]; intro H; simpl.
  - now exists [].
  - destruct (description heap v) as [d|] eqn:E;
      [|now destruct (H v (or_introl eq_refl))].
    destruct IH as [rules [R L]]; [intros v' I; apply H; now right|].
    rewrite R. exists (d :: rules). simpl. now rewrite L.
Qed.

(** X5. A configuration whose entries, those in [remove] apart, are
    names of groups, names of transformations, or inline objects resolves
    without error, and every element of the resolved list is a
    description object: [init] creates its watchers from descriptions
    only. *)
Theorem known_entries_resolve_to_descriptions
        (heap : Heap) (config : TextTransformationConfig) :
  (forall e,
      In e (include config ++ or_empty (extra config)) ->
      ~ In e (or_empty (remove config)) ->
      match e with
      | EStr name =>
          own_property TRANSFORMATION_GROUPS name <> None
          \/ own_property TRANSFORMATIONS name <> None
      | EObj ref => heap ref <> None
      end) ->
  exists out rules,
    getConfiguredTransformations config = Ok out
    /\ descriptions heap out = Some rules
    /\ length rules = length out.
Proof.
  intro K.
  assert (P : no_inherited_key config).
  { intros e I R. specialize (K e I R). destruct e as [name|ref];
      [|reflexivity].
    cbn [ToPropertyKey]. destruct K as [K|K].
    - destruct (own_property TRANSFORMATION_GROUPS name) as [ms|] eqn:G;
        [|contradiction]. exact (group_names_not_inherited _ _ G).
    - destruct (own_property TRANSFORMATIONS name) as [d|] eqn:T;
        [|contradiction]. exact (transformation_names_not_inherited _ _ T). }
  destruct (getConfiguredTransformations_total config P) as [out H].
  destruct (descriptions_Some heap out) as [rules [D L]].
  - intros v I. apply (resolved_In config out v H) in I.
    destruct I as [e [-> [R [[I G]|[g [ms [m [I [Rg [G [M ->]]]]]]]]]]].
    + specialize (K e I R). destruct e as [name|ref].
      * cbn [ToPropertyKey] in G. destruct K as [K|K]; [congruence|].
        unfold materialize, Get. cbn [ToPropertyKey].
        destruct (own_property TRANSFORMATIONS name) as [d|] eqn:T;
          [|contradiction].
        cbn [description]. rewrite T. discriminate.
      * rewrite object_key_not_named. exact K.
    + destruct (group_members_named _ _ _ G M) as [V _]. rewrite V.
      cbn [description]. unfold materialize, Get in V. cbn [ToPropertyKey] in V.
      destruct (own_property TRANSFORMATIONS m); [discriminate|].
      destruct (inherited m); discriminate.
  - exists out, rules. auto.
Qed.

Lemma known_entries_resolve_to_descriptions_witness :
  let heap : Heap :=
    fun ref => if (ref =? 1)%nat then Some (literal "CKS" (lit "CKSource"))
               else None in
  let config :=
    mkConfig [EStr "quotes"; EStr "typography"; EObj 1; EStr "not_a_rule"]
             None (Some [EStr "not_a_rule"]) in
  exists out rules,
    getConfiguredTransformations config = Ok out
    /\ descriptions heap out = Some rules
    /\ length rules = length out.
Proof.
  intros heap config.
  apply (known_entries_resolve_to_descriptions heap config).
  intros e I R. simpl in I, R.
  destruct I as [<-|[<-|[<-|[<-|[]]]]].
  - left. discriminate.
  - left. discriminate.
  - discriminate.
  - exfalso. apply R. now left.
Defined.

(** ** What the quotes pattern matches *)

Section QuotesRegExpComplete.

Import RegExp.

Variable q : N.

Lemma run_split (l : jsstring) :
  exists run tail,
    l = run ++ tail /\ ~ In q run /\ (tail = [] \/ exists t, tail = q :: t).
Proof.
  induction l as [|a l [run [tail [E [Hr Ht]]]]].
  - exists [], []. repeat split; auto.
  - destruct (N.eq_dec a q) as [->|Ha].
    + exists [], (q :: l). repeat split; auto. right. now exists l.
    + exists (a :: run), tail. cbn [app]. rewrite E. repeat split; auto.
      intros [I|I]; [now apply Ha | now apply Hr].
Qed.

(** A quoted span is matched only on an opening quote, a span without
    quotes that is not empty, and a closing quote that ends the input. *)
Lemma quoted_span_Some (i : nat) (s : jsstring)
      (caps : list (option jsstring)) (z : State) :
  matcher (quoted_span q) (mkState i s caps) Some = Some z ->
  exists span, s = q :: span ++ [q] /\ span <> [] /\ ~ In q span.
Proof.
  destruct s as [|ch tl]; [rewrite quoted_span_nil; discriminate|].
  rewrite quoted_span_cons. destruct (q =? ch)%N eqn:Q; [|discriminate].
  apply N.eqb_eq in Q. subst ch.
  destruct tl as [|c0 tl]; [rewrite not_quote_nil; discriminate|].
  rewrite not_quote_cons. destruct (c0 =? q)%N eqn:Q0; [discriminate|].
  apply N.eqb_neq in Q0. cbn [rest].
  destruct (run_split tl) as [run [tail [E [Hr Ht]]]]. subst tl.
  rewrite RepeatMatcher_run;
    [ | assumption | assumption | apply after_span_wants_quote | lia ].
  unfold after_span. cbn [endIndex rest captures].
  destruct Ht as [->|[t ->]].
  - rewrite closing_quote_wanted by discriminate. discriminate.
  - destruct t as [|c t]; [|rewrite closing_quote_early; discriminate].
    intros _. exists (c0 :: run). repeat split.
    + discriminate.
    + intros [I|I]; [now apply Q0 | now apply Hr].
Qed.

Lemma attempt_Some (i : nat) (s : jsstring) (z : State) :
  matcher (buildQuotesRegExp q) (mkState i s [None; None]) Some = Some z ->
  exists b span,
    s = b ++ q :: span ++ [q] /\ span <> [] /\ ~ In q span
    /\ (b = [] /\ i = 0 \/ exists w, isWhiteSpace w = true /\ b = [w]).
Proof.
  rewrite attempt_unfold.
  destruct (if (i =? 0)%nat
            then matcher (quoted_span q)
                         (mkState i s [Some (firstn (i - i) s); None]) Some
            else None) as [y|] eqn:A.
  - intros _. destruct (i =? 0)%nat eqn:I; [|discriminate].
    apply Nat.eqb_eq in I.
    destruct (quoted_span_Some _ _ _ _ A) as [span [E [Hn Hq]]].
    exists [], span. cbn [app]. auto 6.
  - destruct s as [|w s']; [discriminate|].
    destruct (isWhiteSpace w) eqn:W; [|discriminate]. intro B.
    destruct (quoted_span_Some _ _ _ _ B) as [span [E [Hn Hq]]].
    exists [w], span. cbn [app]. rewrite E. repeat split; auto.
    right. now exists w.
Qed.

Lemma search_Some (input : jsstring) :
  forall (i : nat) (m : MatchResult),
    search (buildQuotesRegExp q) 2 i input = Some m ->
    exists pre b span,
      input = pre ++ b ++ q :: span ++ [q] /\ span <> [] /\ ~ In q span
      /\ (b = [] /\ pre = [] /\ i = 0 \/ exists w, isWhiteSpace w = true /\ b = [w]).
Proof.
  induction input as [|c input IH]; intros i m; rewrite search_unfold;
    cbn [repeat];
    destruct (matcher (buildQuotesRegExp q) (mkState i _ [None; None]) Some)
      as [y|] eqn:A.
  - intros _. destruct (attempt_Some _ _ _ A) as [b [span [E [Hn [Hq Hb]]]]].
    exists [], b, span. cbn [app]. repeat split; auto.
    destruct Hb as [[-> ->]|Hb]; auto.
  - discriminate.
  - intros _. destruct (attempt_Some _ _ _ A) as [b [span [E [Hn [Hq Hb]]]]].
    exists [], b, span. cbn [app]. repeat split; auto.
    destruct Hb as [[-> ->]|Hb]; auto.
  - intro H. destruct (IH _ _ H) as [pre [b [span [E [Hn [Hq Hb]]]]]].
    exists (c :: pre), b, span. cbn [app]. rewrite E. repeat split; auto.
    destruct Hb as [[_ [_ Hi]]|Hb]; [discriminate Hi | now right].
Qed.

End QuotesRegExpComplete.

Lemma test_quotes_shape (q : N) (text : jsstring) :
  RegExp.test (buildQuotesRegExp q) text = true ->
  exists pre b span,
    text = pre ++ b ++ q :: span ++ [q]
    /\ span <> []
    /\ ~ In q span
    /\ (b = [] /\ pre = [] \/ exists w, RegExp.isWhiteSpace w = true /\ b = [w]).
Proof.
  unfold RegExp.test.
  destruct (RegExp.exec (buildQuotesRegExp q) text) as [m|] eqn:E;
    [|discriminate].
  intros _. unfold RegExp.exec in E.
  change (length (RegExp.groups_in (buildQuotesRegExp q))) with 2 in E.
  destruct (search_Some q text 0 m E) as [pre [b [span [T [Hn [Hq Hb]]]]]].
  exists pre, b, span. repeat split; auto.
  destruct Hb as [[-> [-> _]]|Hb]; auto.
Qed.


(** ** The shapes of the rules of the catalogue *)

Lemma quote_of_sound (p : RegExp.pattern) (q : N) :
  quote_of p = Some q -> p = buildQuotesRegExp q.
Proof.
  unfold quote_of, buildQuotesRegExp. intro H.
  repeat match type of H with
         | context [match ?x with _ => _ end] =>
             is_var x; destruct x; try discriminate H
         end.
  match type of H with
  | (if ?b then _ else _) = _ => destruct b eqn:E; [|discriminate H]
  end.
  apply andb_true_iff in E. destruct E as [E1 E2].
  apply N.eqb_eq in E1, E2. inversion H. subst. reflexivity.
Qed.

Lemma shape_of_sound (r : TextTransformationDescription) (k : rule_shape) :
  shape_of r = Some k -> r = rule_of_shape k.
Proof.
  destruct r as [f t]. unfold shape_of. cbn [from to].
  destruct f as [s|p].
  - intro H. inversion H. reflexivity.
  - destruct (quote_of p) as [q|] eqn:Q; [|discriminate].
    apply quote_of_sound in Q. subst p.
    destruct t as [|a [|b [|open [|c [|d [|close [|x t]]]]]]]; try discriminate.
    match goal with
    | |- (if ?b then _ else _) = _ -> _ => destruct b eqn:E; [|discriminate]
    end.
    intro H. inversion H. subst k.
    repeat (apply andb_true_iff in E; destruct E as [E ?]).
    repeat match goal with
           | X : (_ =? _)%N = true |- _ => apply N.eqb_eq in X
           end.
    subst. reflexivity.
Qed.

Lemma shape_of_quoted (q open close : N) (k : rule_shape) :
  shape_of (quoted q open close) = Some k ->
  k = QuotesRule q open close
  /\ RegExp.isDigit open = false /\ open <> 36%N
  /\ RegExp.isDigit close = false /\ close <> 36%N.
Proof.
  unfold shape_of, quoted. cbn [from to].
  change (quote_of (buildQuotesRegExp q))
    with (if ((q =? q) && (q =? q))%N then Some q else None).
  rewrite N.eqb_refl. cbn [andb].
  change (lit "$1" ++ [open] ++ lit "$2" ++ [close])
    with [36%N; 49%N; open; 36%N; 50%N; close].
  cbn [N.eqb Pos.eqb andb].
  unfold template_char.
  destruct (open =? 36)%N eqn:O; [discriminate|].
  destruct (RegExp.isDigit open) eqn:Do; [discriminate|].
  destruct (close =? 36)%N eqn:C; [discriminate|].
  destruct (RegExp.isDigit close) eqn:Dc; [discriminate|].
  cbn [negb andb]. intro H. inversion H.
  apply N.eqb_neq in O, C. auto.
Qed.

(** Every rule of the catalogue is a literal rule or a quotes rule. *)
Lemma catalogue_shapes (name : string) (d : TextTransformationDescription) :
  In (name, d) TRANSFORMATIONS -> exists k, shape_of d = Some k.
Proof.
  intro I.
  assert (All : forallb (fun nd => match shape_of (snd nd) with
                                   | Some _ => true
                                   | None => false
                                   end) TRANSFORMATIONS = true) by reflexivity.
  rewrite forallb_forall in All. specialize (All _ I).
  cbv beta in All. unfold snd in All.
  destruct (shape_of d) as [k|]; [now exists k | discriminate].
Qed.

(** X7. Each of the six quotes rules of the catalogue (US, UK and Polish,
    primary and secondary) fires on a probe text that ends in a span
    between its straight quote characters after the start of the text or
    a white space character, and replaces the two straight quotes by its
    own opening and closing quotation marks, the text before them, the
    boundary and the span being kept. *)
Theorem quotes_rules_pair_quotes
        (name : string) (q open close : N) (pre b span : jsstring) :
  In (name, quoted q open close) TRANSFORMATIONS ->
  span <> [] ->
  ~ In q span ->
  (b = [] /\ pre = [] \/ exists w, RegExp.isWhiteSpace w = true /\ b = [w]) ->
  let text := pre ++ b ++ q :: span ++ [q] in
  RegExp.test (buildQuotesRegExp q) text = true
  /\ textReplacer (quoted q open close) text
     = pre ++ b ++ open :: span ++ [close].
Proof.
  intros I Hn Hq Hb text.
  pose proof (exec_quotes q pre b span Hn Hq Hb) as E. fold text in E.
  destruct (catalogue_shapes _ _ I) as [k K].
  destruct (shape_of_quoted _ _ _ _ K) as [_ [Do [Ho [Dc Hc]]]].
  split.
  - unfold RegExp.test. now rewrite E.
  - exact (replace_quotes q open close pre b span Do Ho Dc Hc E).
Qed.

Lemma quotes_rules_pair_quotes_witness :
  let text := lit "powiedzial " ++ [apostrophe] ++ lit "tak" ++ [apostrophe] in
  In ("quotes_secondary_pl", quoted apostrophe 8218 8217) TRANSFORMATIONS
  /\ ~ In apostrophe (lit "tak")
  /\ textReplacer (quoted apostrophe 8218 8217) text
     = lit "powiedzial " ++ [8218%N] ++ lit "tak" ++ [8217%N].
Proof.
  intro text.
  assert (I : In ("quotes_secondary_pl", quoted apostrophe 8218 8217)
                 TRANSFORMATIONS).
  { unfold TRANSFORMATIONS. repeat (try (left; reflexivity); right). }
  assert (Hq : ~ In apostrophe (lit "tak")).
  { intro H. repeat (destruct H as [H|H]; [discriminate H|]). exact H. }
  split; [exact I | split; [exact Hq |]].
  exact (proj2 (quotes_rules_pair_quotes "quotes_secondary_pl" apostrophe
                  8218 8217 (lit "powiedzial") [32%N] (lit "tak") I
                  ltac:(discriminate) Hq
                  (or_intror (ex_intro _ 32%N (conj eq_refl eq_refl))))).
Defined.


(** ** Rules that exclude one another *)

Lemma endsWith_comparable (text a b : jsstring) :
  endsWith text a = true -> endsWith text b = true -> comparable a b = true.
Proof.
  intros A B. apply endsWith_suffix in A, B.
  destruct A as [p1 ->]. destruct B as [p2 E].
  apply app_eq_app in E. destruct E as [l [[_ E]|[_ E]]];
    unfold comparable; apply orb_true_iff.
  - right. apply endsWith_suffix. now exists l.
  - left. apply endsWith_suffix. now exists l.
Qed.

Section Shapes.

Variable Attributes : Type.

Lemma fires_trigger_suffix (r : TextTransformationDescription)
      (k : rule_shape) (text : jsstring) :
  shape_of r = Some k ->
  fires Attributes r text = true ->
  endsWith text (trigger_suffix k) = true.
Proof.
  intros K F. apply shape_of_sound in K. subst r.
  rewrite testCallback_watch in F. destruct k as [s t|q open close];
    cbn [rule_of_shape from quoted trigger_suffix] in *; [assumption|].
  destruct (test_quotes_shape q text F) as [pre [b [span [-> _]]]].
  apply endsWith_suffix. exists (pre ++ b ++ q :: span).
  now rewrite <- !app_assoc.
Qed.

Lemma fires_output_suffix (r : TextTransformationDescription)
      (k : rule_shape) (text : jsstring) :
  shape_of r = Some k ->
  fires Attributes r text = true ->
  endsWith (textReplacer r text) (output_suffix k) = true.
Proof.
  intros K F. pose proof (shape_of_sound r k K) as R. subst r.
  rewrite testCallback_watch in F. destruct k as [s t|q open close].
  - cbn [rule_of_shape from to output_suffix] in *.
    apply endsWith_suffix in F. destruct F as [prefix ->].
    unfold textReplacer. cbn [from to]. rewrite slice_prefix.
    apply endsWith_suffix. now exists prefix.
  - change (rule_of_shape (QuotesRule q open close))
      with (quoted q open close) in *.
    change (from (quoted q open close))
      with (FromRegExp (buildQuotesRegExp q)) in F. cbv iota in F.
    destruct (shape_of_quoted _ _ _ _ K) as [_ [Do [Ho [Dc Hc]]]].
    destruct (test_quotes_shape q text F) as [pre [b [span [-> [Hn [Hq Hb]]]]]].
    assert (R : textReplacer (quoted q open close)
                             (pre ++ b ++ q :: span ++ [q])
                = pre ++ b ++ open :: span ++ [close]).
    { exact (replace_quotes q open close pre b span Do Ho Dc Hc
               (exec_quotes q pre b span Hn Hq Hb)). }
    rewrite R. cbn [output_suffix].
    apply endsWith_suffix. exists (pre ++ b ++ open :: span).
    now rewrite <- !app_assoc.
Qed.

Lemma shapes_of_In (rules : list TextTransformationDescription)
      (ks : list rule_shape) (r : TextTransformationDescription) :
  shapes_of rules = Some ks ->
  In r rules ->
  exists k, shape_of r = Some k /\ In k ks.
Proof.
  revert ks. induction rules as [|r0 rules IH]; intros ks S I; [destruct I|].
  simpl in S. destruct (shape_of r0) as [k0|] eqn:K0; [|discriminate].
  destruct (shapes_of rules) as [ks0|]; [|discriminate].
  inversion S. subst ks. destruct I as [->|I].
  - exists k0. split; [assumption | now left].
  - destruct (IH ks0 eq_refl I) as [k [K Ik]]. exists k.
    split; [assumption | now right].
Qed.

Lemma exclusive_sound (rules : list TextTransformationDescription) :
  forall ks text,
    shapes_of rules = Some ks ->
    exclusive ks = true ->
    length (filter (fun r => fires Attributes r text) rules) <= 1.
Proof.
  induction rules as [|r rules IH]; intros ks text S X; [simpl; lia|].
  simpl in S. destruct (shape_of r) as [k|] eqn:K; [|discriminate].
  destruct (shapes_of rules) as [ks0|] eqn:S0; [|discriminate].
  inversion S. subst ks. simpl in X. apply andb_true_iff in X.
  destruct X as [X0 X]. cbn [filter].
  destruct (fires Attributes r text) eqn:F; [|now apply (IH ks0)].
  rewrite (filter_ext_in _ (fun _ => false)); [|].
  - clear. induction rules; simpl; [lia | assumption].
  - intros r' I. destruct (fires Attributes r' text) eqn:F'; [|reflexivity].
    destruct (shapes_of_In rules ks0 r' S0 I) as [k' [K' Ik']].
    rewrite forallb_forall in X0. specialize (X0 k' Ik').
    apply negb_true_iff in X0.
    rewrite (endsWith_comparable text _ _
               (fires_trigger_suffix r k text K F)
               (fires_trigger_suffix r' k' text K' F')) in X0.
    discriminate X0.
Qed.

Lemma never_chains_sound (rules : list TextTransformationDescription)
      (ks : list rule_shape) (r r' : TextTransformationDescription)
      (text : jsstring) :
  shapes_of rules = Some ks ->
  never_chains ks = true ->
  In r rules -> In r' rules ->
  fires Attributes r text = true ->
  fires Attributes r' (textReplacer r text) = false.
Proof.
  intros S N I I' F.
  destruct (shapes_of_In rules ks r S I) as [k [K Ik]].
  destruct (shapes_of_In rules ks r' S I') as [k' [K' Ik']].
  unfold never_chains in N. rewrite forallb_forall in N.
  specialize (N k Ik). rewrite forallb_forall in N. specialize (N k' Ik').
  apply negb_true_iff in N.
  destruct (fires Attributes r' (textReplacer r text)) eqn:F'; [|reflexivity].
  rewrite (endsWith_comparable (textReplacer r text) _ _
             (fires_output_suffix r k text K F)
             (fires_trigger_suffix r' k' _ K' F')) in N.
  discriminate N.
Qed.

(** X8. With the default configuration, which activates the first
    eighteen transformations of the catalogue in the order of the
    catalogue, at most one rule fires on a probe text, whatever the
    text: no literal of the default set ends with another one or with a
    quote character. *)
Theorem default_rules_fire_one_at_a_time :
  exists out rules,
    getConfiguredTransformations (mkConfig DEFAULT_TRANSFORMATIONS None None)
    = Ok out
    /\ descriptions (fun _ => None) out = Some rules
    /\ rules = map snd (firstn 18 TRANSFORMATIONS)
    /\ forall text,
        length (filter (fun r => fires Attributes r text) rules) <= 1.
Proof.
  eexists. eexists. split; [reflexivity|]. split; [reflexivity|].
  split; [reflexivity|]. intro text.
  eapply exclusive_sound; [reflexivity|]. reflexivity.
Qed.

(** X9. No transformation of the catalogue triggers a transformation of
    the catalogue: once a rule has fired on a probe text, no rule of the
    catalogue, the same one included, fires on the text it has
    produced. *)
Theorem catalogue_never_chains
        (name name' : string) (d d' : TextTransformationDescription)
        (text : jsstring) :
  In (name, d) TRANSFORMATIONS ->
  In (name', d') TRANSFORMATIONS ->
  fires Attributes d text = true ->
  fires Attributes d' (textReplacer d text) = false.
Proof.
  intros I I' F.
  apply (never_chains_sound (map snd TRANSFORMATIONS)) with
    (ks := match shapes_of (map snd TRANSFORMATIONS) with
           | Some ks => ks
           | None => []
           end).
  - reflexivity.
  - reflexivity.
  - apply in_map_iff. now exists (name, d).
  - apply in_map_iff. now exists (name', d').
  - exact F.
Qed.

End Shapes.

Lemma catalogue_never_chains_witness :
  let en_dash := literal " -- " [32%N; 8211%N; 32%N] in
  let em_dash := literal " --- " [32%N; 8212%N; 32%N] in
  let text := lit "a -- " in
  In ("en_dash", en_dash) TRANSFORMATIONS
  /\ In ("em_dash", em_dash) TRANSFORMATIONS
  /\ fires unit en_dash text = true
  /\ fires unit em_dash (textReplacer en_dash text) = false.
Proof.
  intros en_dash em_dash text.
  assert (I : In ("en_dash", en_dash) TRANSFORMATIONS).
  { unfold TRANSFORMATIONS. repeat (try (left; reflexivity); right). }
  assert (I' : In ("em_dash", em_dash) TRANSFORMATIONS).
  { unfold TRANSFORMATIONS. repeat (try (left; reflexivity); right). }
  assert (F : fires unit en_dash text = true) by reflexivity.
  split; [exact I | split; [exact I' | split; [exact F |]]].
  exact (catalogue_never_chains unit "en_dash" "em_dash" en_dash em_dash text
           I I' F).
Defined.

(** ** Where a regular expression rule rewrites *)






Section RegExpRules.

Variable Attributes : Type.



(** X12. A literal rule with an empty [from] fires on every probe text,
    the empty one included, and puts [to] after the whole text. *)
Theorem empty_literal_fires_always (t text : jsstring) :
  fires Attributes (mkDescription (FromString []) t) text = true
  /\ textReplacer (mkDescription (FromString []) t) text = text ++ t.
Proof.
  split.
  - rewrite testCallback_watch. cbn [from]. apply endsWith_suffix.
    exists text. now rewrite app_nil_r.
  - unfold textReplacer. cbn [from to].
    pose proof (slice_prefix text []) as S. rewrite app_nil_r in S.
    now rewrite S.
Qed.

End RegExpRules.



(** ** How the three lists of a configuration compose *)

Lemma expansion_app (l1 l2 : list entry) :
  expansion (l1 ++ l2) = expansion l1 ++ expansion l2.
Proof. unfold expansion. apply flat_map_app. Qed.

Lemma first_occurrences_app (l1 l2 : list entry) :
  first_occurrences (l1 ++ l2)
  = first_occurrences l1
      ++ filter (fun y => negb (includes (first_occurrences l1) y))
                (first_occurrences l2).
Proof.
  rewrite <- (first_occurrences_of_fold (l1 ++ l2)), fold_left_app.
  rewrite first_occurrences_of_fold.
  apply fold_Set_add_first_occurrences.
Qed.

(** X13. [extra] only adds: the list resolved from [include] alone, with
    the same [remove], is the beginning of the list resolved from
    [include] and [extra], and what follows it is new. *)
Theorem extra_appends
        (config : TextTransformationConfig) (out : list value) :
  getConfiguredTransformations config = Ok out ->
  exists base added,
    getConfiguredTransformations
      (mkConfig (include config) None (remove config)) = Ok base
    /\ out = base ++ added
    /\ forall v, In v added -> ~ In v base.
Proof.
  intro H. pose proof (getConfiguredTransformations_Ok_no_inherited _ _ H) as P.
  apply getConfiguredTransformations_steps in H.
  set (removed := or_empty (remove config)) in *.
  rewrite filter_app, expansion_app, first_occurrences_app, filter_app,
    map_app in H.
  set (L1 := filter (isNotRemoved removed) (include config)) in *.
  set (L2 := filter (isNotRemoved removed) (or_empty (extra config))) in *.
  exists (map materialize
            (filter (isNotRemoved removed) (first_occurrences (expansion L1)))),
    (map materialize
       (filter (isNotRemoved removed)
          (filter (fun y => negb (includes (first_occurrences (expansion L1)) y))
                  (first_occurrences (expansion L2))))).
  split; [|split; [exact H|]].
  - unfold getConfiguredTransformations, expandGroupsAndRemoveDuplicates.
    cbn [include extra remove or_empty]. fold removed.
    rewrite app_nil_r. fold L1.
    rewrite expand_loop_Ok, first_occurrences_of_fold; [reflexivity|].
    intros e I. apply filter_In in I. destruct I as [I R].
    apply isNotRemoved_true in R. apply P; [|assumption].
    apply in_app_iff. now left.
  - intros v A B. apply in_map_iff in A. destruct A as [e [<- A]].
    rewrite map_materialize_In in B.
    apply filter_In in A. destruct A as [A _].
    apply filter_In in A. destruct A as [_ A].
    apply negb_true_iff, includes_not_In in A.
    apply filter_In in B. tauto.
Qed.

Lemma extra_appends_witness :
  let config :=
    mkConfig [EStr "symbols"] (Some [EStr "trademark"; EStr "en_dash"])
             (Some [EStr "copyright"]) in
  exists out,
    getConfiguredTransformations config = Ok out
    /\ exists base added,
        getConfiguredTransformations
          (mkConfig (include config) None (remove config)) = Ok base
        /\ out = base ++ added
        /\ forall v, In v added -> ~ In v base.
Proof.
  intro config. eexists. split; [reflexivity|].
  exact (extra_appends config _ eq_refl).
Defined.

(** X14. [remove] only takes away: every element of the list resolved
    with a [remove] list is an element of the list resolved without
    it. *)
Theorem remove_never_adds
        (config : TextTransformationConfig) (out all : list value) (v : value) :
  getConfiguredTransformations config = Ok out ->
  getConfiguredTransformations
    (mkConfig (include config) (extra config) None) = Ok all ->
  In v out ->
  In v all.
Proof.
  intros H A I. apply (resolved_In config out v H) in I.
  apply (resolved_In _ all v A). cbn [include extra remove or_empty].
  destruct I as [e [-> [R X]]]. exists e. split; [reflexivity|].
  split; [intros []|].
  destruct X as [X|[g [ms [m [Ig [Rg X]]]]]]; [now left|].
  right. exists g, ms, m. split; [assumption|]. split; [intros []|assumption].
Qed.

Lemma remove_never_adds_witness :
  let config :=
    mkConfig [EStr "symbols"; EStr "trademark"; EStr "copyright"] None
             (Some [EStr "symbols"]) in
  getConfiguredTransformations config
  = Ok [VNamed "trademark"; VNamed "copyright"]
  /\ In (VNamed "trademark")
        [VNamed "copyright"; VNamed "registered_trademark"; VNamed "trademark"].
Proof.
  intro config.
  assert (H : getConfiguredTransformations config
              = Ok [VNamed "trademark"; VNamed "copyright"]) by reflexivity.
  split; [exact H |].
  refine (remove_never_adds config _ _ (VNamed "trademark") H eq_refl _).
  now left.
Defined.
